(** * usdc-transfer: attestation polling and faucet claiming

    A shallow embedding of the three JavaScript sources of the repository:

    - [src/server.js]: the CCTP attestation proxy, whose core is the
      polling loop [pollAttestation];
    - [src/faucet-automation.js]: the faucet automation that re-runs
      itself every 60 minutes;
    - [src/unnamed/part_000]: the one-shot variant of the faucet
      automation (it exits the process on a fatal error and aggregates the
      per-chain results into a final summary).

    Asynchronous functions are modelled in direct style: every [await] is a
    sequencing point of a single-threaded program, so an [async] function is
    a function from the answers of the outside world (clock readings, HTTP
    answers, the wallet file) to a completion and the trace of the
    observable events it produced. *)

From Stdlib Require Import ZArith List String Bool Lia Floats DecimalString.
Import ListNotations.
Local Open Scope string_scope.
Local Open Scope list_scope.
Local Open Scope Z_scope.
Set Warnings "-register-all".

(** * JavaScript values that reach the programs

    The only dynamic values the programs inspect are the bodies parsed by
    [response.json()].  A parsed body is a JSON value; a property read on it
    yields a JSON value or [undefined]. *)

Module JS.

Inductive JSON : Type :=
| JNull
| JBool (b : bool)
| JNum (x : float)
| JStr (s : string)
| JArr (items : list JSON)
| JObj (fields : list (string * JSON)).

(** A JavaScript value as seen by the programs: [None] is [undefined]. *)
Definition Value : Type := option JSON.

Definition undefined : Value := None.

(** Own property of a parsed object.  The property list is in the order of
    the JSON text; as with [JSON.parse], a later duplicate key wins. *)
Fixpoint own_prop (k : string) (fields : list (string * JSON)) : Value :=
  match fields with
  | [] => None
  | (k', v) :: rest =>
      match own_prop k rest with
      | Some later => Some later
      | None => if String.eqb k k' then Some v else None
      end
  end.

(** [json.k] for the property names the programs read ([status],
    [attestation], [message], [error]): a [TypeError] on [null], the own
    property on an object, [undefined] on a boolean, number, string or
    array (none of their prototypes defines these names). *)
Definition type_error_null (k : string) : string :=
  ("Cannot read properties of null (reading '" ++ k ++ "')")%string.

Definition type_error_undefined (k : string) : string :=
  ("Cannot read properties of undefined (reading '" ++ k ++ "')")%string.

Definition prop (j : JSON) (k : string) : string + Value :=
  match j with
  | JNull => inl (type_error_null k)
  | JObj fields => inr (own_prop k fields)
  | _ => inr undefined
  end.

(** ToBoolean. *)
Definition truthy (v : Value) : bool :=
  match v with
  | None => false
  | Some JNull => false
  | Some (JBool b) => b
  | Some (JNum x) => negb (PrimFloat.is_zero x || PrimFloat.is_nan x)
  | Some (JStr s) => negb (String.eqb s "")
  | Some (JArr _) => true
  | Some (JObj _) => true
  end.

(** [v === "lit"] for a string literal. *)
Definition strict_eq_str (v : Value) (lit : string) : bool :=
  match v with
  | Some (JStr s) => String.eqb s lit
  | _ => false
  end.

(** [a || b]. *)
Definition or_else (a : Value) (b : Value) : Value :=
  if truthy a then a else b.

(** Whether ToString, as applied by a template literal, succeeds on a
    parsed value.  A parsed object is converted by its [toString]: the
    inherited one gives "[object Object]", but an own property of that
    name is never callable (it is a JSON value), and then [valueOf] does
    not yield a primitive either, so the conversion throws a [TypeError].
    An array is converted by joining the conversions of its elements
    ([null] elements give the empty string). *)
Fixpoint convertible (j : JSON) : bool :=
  match j with
  | JNull => true
  | JBool _ => true
  | JNum _ => true
  | JStr _ => true
  | JArr items => forallb convertible items
  | JObj fields =>
      match own_prop "toString" fields with
      | Some _ => false
      | None => true
      end
  end.

(** The same on a value that may be [undefined]. *)
Definition printable (v : Value) : bool :=
  match v with
  | None => true
  | Some j => convertible j
  end.

(** The message of the [TypeError] of a failed conversion. *)
Definition cannot_convert : string :=
  "Cannot convert object to primitive value".

(** A value that is put into a text only when it is truthy gets through:
    it is falsy, or it can be converted. *)
Definition shows (v : Value) : bool :=
  if truthy v then printable v else true.

End JS.

(** * The outside world of an HTTP request made with node-fetch *)

Module Http.

Import JS.

(** What [await res.json()] does: it rejects on a body that is not JSON,
    otherwise it yields the parsed value. *)
Inductive Body : Type :=
| BodyMalformed (message : string)
| BodyJSON (json : JSON).

(** What [await fetch(...)] does: it rejects on a network failure,
    otherwise it yields a response with its status line and body. *)
Inductive FetchResult : Type :=
| FetchRejects (message : string)
| FetchResponse (status : Z) (statusText : string) (body : Body).

(** [res.ok] of node-fetch: the status is in the range 200-299. *)
Definition res_ok (status : Z) : bool :=
  (200 <=? status) && (status <? 300).

End Http.

(** * src/server.js *)

Module Server.

Import JS Http.

Definition IRIS : string :=
  "https://iris-api-sandbox.circle.com/v1/attestations".

Definition timeout : Z := 180000.
Definition pollInterval : Z := 3000.

(** One pass through the body of the [while (true)] loop reads the clock
    at its top (line 27), awaits one [fetch], and, unless it returned,
    reads the clock again for the deadline check (line 68). *)
Record Attempt : Type := {
  now_top : Z;
  fetched : FetchResult;
  now_check : Z
}.

(** The world of one invocation: the clock reading of line 20 and what
    each pass of the loop meets.  All times are milliseconds. *)
Record World : Type := {
  start : Z;
  attempt : nat -> Attempt
}.

(** Observable events: the console lines (by the line of the source that
    prints them), the outbound GET, and the suspension between polls. *)
Inductive Event : Type :=
| EvStart (hash : string)
| EvGet (url : string)
| EvHttpError (status : Z) (statusText : string)
| EvNotFound (elapsed : Z)
| EvStatus (elapsed : Z) (status : Value)
| EvReady (elapsed : Z)
| EvWaitingConfirmations (elapsed : Z)
| EvReadyComplete
| EvFetchError (message : string)
| EvTimeout (seconds : Z)
| EvSleep (ms : Z).

(** How a block of statements completes. *)
Inductive Completion : Type :=
| Normal
| ReturnC (json : JSON)
| ThrowC (message : string).

(** The statements of lines 41-60, on a parsed body that is not [null].
    The template of line 42 converts a truthy [status] to a string, which
    throws when the value cannot be converted. *)
Definition inspect (elapsed : Z) (json : JSON) (status attestation : Value)
  : list Event * Completion :=
  if truthy status && negb (printable status)
  then ([], ThrowC cannot_convert)
  else
  let shown := if truthy status then [EvStatus elapsed status] else [] in
  if truthy attestation
     && negb (strict_eq_str attestation "PENDING")
     && negb (strict_eq_str attestation "pending")
  then (shown ++ [EvReady elapsed], ReturnC json)
  else if strict_eq_str status "pending_confirmations"
  then (shown ++ [EvWaitingConfirmations elapsed], Normal)
  else if strict_eq_str status "complete"
  then if truthy attestation
       then (shown ++ [EvReadyComplete], ReturnC json)
       else (shown, Normal)
  else (shown, Normal).

(** The [try] block, lines 30-61. *)
Definition try_block (hash : string) (elapsed : Z) (f : FetchResult)
  : list Event * Completion :=
  let get := EvGet (IRIS ++ "/" ++ hash)%string in
  match f with
  | FetchRejects m => ([get], ThrowC m)
  | FetchResponse status statusText body =>
      if negb (res_ok status)
      then (get :: EvHttpError status statusText
                :: (if status =? 404 then [EvNotFound elapsed] else []),
            Normal)
      else
        match body with
        | BodyMalformed m => ([get], ThrowC m)
        | BodyJSON json =>
            match prop json "status", prop json "attestation" with
            | inl m, _ => ([get], ThrowC m)
            | _, inl m => ([get], ThrowC m)
            | inr status, inr attestation =>
                let (evs, c) := inspect elapsed json status attestation in
                (get :: evs, c)
            end
        end
  end.

(** [try { ... } catch (e) { red(...) }], lines 29-65. *)
Definition try_catch (hash : string) (elapsed : Z) (f : FetchResult)
  : list Event * Completion :=
  match try_block hash elapsed f with
  | (evs, ThrowC m) => (evs ++ [EvFetchError m], Normal)
  | r => r
  end.

Definition timeout_message (hash : string) : string :=
  ("Attestation timeout. The transaction may need more confirmations. "
   ++ "Try checking https://iris-api-sandbox.circle.com/v1/attestations/"
   ++ hash ++ " directly.")%string.

(** How one pass of the loop body ends. *)
Inductive Step : Type :=
| Return (json : JSON)
| Throw (message : string)
| Continue.

(** One pass of the loop body, lines 27-77. *)
Definition iteration (w : World) (hash : string) (i : nat)
  : list Event * Step :=
  let a := attempt w i in
  let elapsed := (now_top a - start w) / 1000 in
  match try_catch hash elapsed (fetched a) with
  | (evs, ReturnC json) => (evs, Return json)
  | (evs, _) =>
      if now_check a - start w >? timeout
      then (evs ++ [EvTimeout (timeout / 1000)], Throw (timeout_message hash))
      else (evs ++ [EvSleep pollInterval], Continue)
  end.

(** The settled promise of [pollAttestation]. *)
Inductive Outcome : Type :=
| Resolved (json : JSON)
| Rejected (message : string).

(** The loop, from pass [i] on.  [fuel] bounds the number of passes; [None]
    means the bound was reached with the loop still running. *)
Fixpoint poll_loop (fuel : nat) (w : World) (hash : string) (i : nat)
  : option (Outcome * list Event) :=
  match fuel with
  | O => None
  | S fuel' =>
      match iteration w hash i with
      | (evs, Return json) => Some (Resolved json, evs)
      | (evs, Throw m) => Some (Rejected m, evs)
      | (evs, Continue) =>
          match poll_loop fuel' w hash (S i) with
          | Some (o, rest) => Some (o, evs ++ rest)
          | None => None
          end
      end
  end.

Definition pollAttestation (fuel : nat) (w : World) (hash : string)
  : option (Outcome * list Event) :=
  match poll_loop fuel w hash 0 with
  | Some (o, evs) => Some (o, EvStart hash :: evs)
  | None => None
  end.

End Server.

(** * The faucet automation: what the two scripts share

    [src/faucet-automation.js] and [src/unnamed/part_000] have the same
    [CHAINS], [log] and [claimUSDC] up to the decoration of the console
    lines (emoji, ANSI colours), which the model leaves out together with
    timestamps and durations.  They differ in [loadWallets], in what
    [processChain] returns and in [runFaucet]. *)

Module Faucet.

Import JS Http.

Definition FAUCET_API : string := "https://faucet.circle.com/claim".

Record ChainConfig : Type := {
  name : string;
  chainId : string;
  token : string
}.

(** An object literal keeps its keys in insertion order. *)
Definition CHAINS : list (string * ChainConfig) :=
  [ ("avalanche_fuji",
     {| name := "Avalanche Fuji Testnet"; chainId := "43113"; token := "USDC" |});
    ("ethereum_sepolia",
     {| name := "Ethereum Sepolia Testnet"; chainId := "11155111"; token := "USDC" |});
    ("base_sepolia",
     {| name := "Base Sepolia Testnet"; chainId := "84532"; token := "USDC" |}) ].

(** The property names every object literal inherits from
    [Object.prototype].  On these [o[k]] is a member of the prototype,
    not [undefined]; the model does not cover them. *)
Definition inherited_key (k : string) : bool :=
  existsb (String.eqb k)
    [ "constructor"; "toString"; "toLocaleString"; "valueOf";
      "hasOwnProperty"; "isPrototypeOf"; "propertyIsEnumerable"; "__proto__";
      "__defineGetter__"; "__defineSetter__"; "__lookupGetter__";
      "__lookupSetter__" ].

(** [o[k]] on an object literal with distinct keys, for a key that is not
    inherited; [None] is [undefined]. *)
Fixpoint lookup {A : Type} (k : string) (o : list (string * A)) : option A :=
  match o with
  | [] => None
  | (k', v) :: rest => if String.eqb k k' then Some v else lookup k rest
  end.

(** [o[k] = v]. *)
Fixpoint assign {A : Type} (k : string) (v : A) (o : list (string * A))
  : list (string * A) :=
  match o with
  | [] => [(k, v)]
  | (k', v') :: rest =>
      if String.eqb k k' then (k', v) :: rest else (k', v') :: assign k v rest
  end.

Definition keys {A : Type} (o : list (string * A)) : list string := map fst o.
Definition values {A : Type} (o : list (string * A)) : list A := map snd o.

(** A thrown JavaScript error: [error.code] (set by [fs]) and
    [error.message]. *)
Record Error : Type := {
  code : option string;
  message : string
}.

Definition TypeError (m : string) : Error := {| code := None; message := m |}.

(** The body of the POST, before [JSON.stringify]. *)
Record ClaimRequest : Type := {
  req_address : string;
  req_chainId : string;
  req_token : string
}.

(** The parsed [wallets.json], taken to have the shape of the sample file:
    an object from chain keys to lists of addresses. *)
Definition Wallets : Type := list (string * list string).

(** The outside world of one run. *)
Record World : Type := {
  (** [fs.readFile] followed by [JSON.parse]: the error of whichever
      throws, or the parsed object. *)
  wallet_file : Error + Wallets;
  (** [fs.writeFile] of the sample wallets: its error, if it fails. *)
  sample_write : option Error;
  (** The answer to the [n]-th POST of the run (counted from 0). *)
  faucet : nat -> ClaimRequest -> FetchResult;
  (** [fs.appendFile] of the [n]-th log line: its error message, if it
      fails. *)
  log_append : nat -> option string
}.

(** What [claimUSDC] returns. *)
Record ClaimOutcome : Type := {
  success : bool;
  outcome_message : Value;
  outcome_error : Value
}.

(** [{ wallet, ...result }]. *)
Record Entry : Type := {
  wallet : string;
  result : ClaimOutcome
}.

Inductive Color : Type := green | red | yellow | blue | plain.

(** The texts printed or logged, by the template of the source. *)
Inductive Message : Type :=
| MClaiming (walletAddress chainName : string)
| MSuccess (shown : Value)
| MFailed (shown : Value)
| MNetworkError (msg : string)
| MLogSuccess (walletAddress chainName : string)
| MLogFailed (shown : Value) (walletAddress chainName : string)
| MLogError (walletAddress chainName msg : string)
| MNoWallets (chainName : string)
| MProcessing (count : nat) (chainName : string)
| MChainSummary (chainName : string) (successful failed : nat)
| MLogSummary (chainName : string) (successful failed : nat)
| MStarting
| MRule
| MBanner
| MFailedToStart (msg : string)
| MFatal (msg : string)
| MLogFatal (msg : string)
| MCycleCompleted
| MNextRun
| MLogCycle
| MFinalSummary (totalSuccess totalFailed : nat)
| MLogFinal (totalSuccess totalFailed : nat)
| MLogWriteFailed (msg : string)
| MLoadFailed (msg : string)
| MCreatedSample.

Inductive Event : Type :=
| Console (c : Color) (m : Message)
| Append (m : Message)
| Post (url : string) (body : ClaimRequest)
| Sleep (ms : Z)
| WriteSample
| SetInterval (ms : Z)
| ExitProcess (status : Z).

(** The state threaded through a run: how many POSTs and log lines have
    been issued, and the events so far (oldest first). *)
Record State : Type := {
  posts : nat;
  appends : nat;
  trace : list Event
}.

Definition initial : State := {| posts := 0; appends := 0; trace := [] |}.

(** How an asynchronous call completes: it fulfils, it rejects, or the
    process has exited under it. *)
Inductive Result (A : Type) : Type :=
| Ok (a : A)
| Thrown (e : Error)
| Exited (status : Z).

Arguments Ok {A} a.
Arguments Thrown {A} e.
Arguments Exited {A} status.

Definition M (A : Type) : Type := World -> State -> Result A * State.

Definition ret {A : Type} (a : A) : M A := fun _ s => (Ok a, s).

Definition bind {A B : Type} (m : M A) (k : A -> M B) : M B :=
  fun w s =>
    match m w s with
    | (Ok a, s') => k a w s'
    | (Thrown e, s') => (Thrown e, s')
    | (Exited c, s') => (Exited c, s')
    end.

Notation "x <- m ;; k" := (bind m (fun x => k))
  (at level 61, m at next level, right associativity).
Notation "m ;; k" := (bind m (fun _ => k))
  (at level 61, right associativity).

Definition throw {A : Type} (e : Error) : M A := fun _ s => (Thrown e, s).

(** [try { m } catch (error) { handler }]. *)
Definition try_catch {A : Type} (m : M A) (handler : Error -> M A) : M A :=
  fun w s =>
    match m w s with
    | (Thrown e, s') => handler e w s'
    | r => r
    end.

Definition emit (e : Event) : M unit :=
  fun _ s =>
    (Ok tt, {| posts := posts s; appends := appends s; trace := trace s ++ [e] |}).

(** [process.exit(status)]. *)
Definition exit {A : Type} (status : Z) : M A :=
  fun _ s =>
    (Exited status,
     {| posts := posts s; appends := appends s;
        trace := trace s ++ [ExitProcess status] |}).

(** [await new Promise(resolve => setTimeout(resolve, ms))]. *)
Definition sleep (ms : Z) : M unit := emit (Sleep ms).

(** [x.k] on a value that may be [undefined]. *)
Definition field {R A : Type} (k : string) (get : R -> A) (x : option R) : M A :=
  match x with
  | Some r => ret (get r)
  | None => throw (TypeError (type_error_undefined k))
  end.

(** [result.k] on a parsed body. *)
Definition read (j : JSON) (k : string) : M Value :=
  match prop j k with
  | inl m => throw (TypeError m)
  | inr v => ret v
  end.

(** [log(message)]: echoes the line and appends it to the log file; a
    failed append is reported and swallowed. *)
Definition log (m : Message) : M unit :=
  fun w s =>
    let s1 := {| posts := posts s; appends := S (appends s);
                 trace := trace s ++ [Console plain m; Append m] |} in
    match log_append w (appends s) with
    | None => (Ok tt, s1)
    | Some msg =>
        (Ok tt, {| posts := posts s1; appends := appends s1;
                   trace := trace s1 ++ [Console red (MLogWriteFailed msg)] |})
    end.

(** [await fetch(FAUCET_API, { method: 'POST', ... })]. *)
Definition fetch_post (url : string) (body : ClaimRequest) : M (Z * Body) :=
  fun w s =>
    let s' := {| posts := S (posts s); appends := appends s;
                 trace := trace s ++ [Post url body] |} in
    match faucet w (posts s) body with
    | FetchRejects m => (Thrown {| code := None; message := m |}, s')
    | FetchResponse status _ body => (Ok (status, body), s')
    end.

(** [await response.json()]. *)
Definition json_of (b : Body) : M JSON :=
  match b with
  | BodyMalformed m => throw {| code := None; message := m |}
  | BodyJSON j => ret j
  end.

(** A value put into a template literal: its conversion to a string
    throws a [TypeError] when it cannot be converted. *)
Definition text (v : Value) : M Value :=
  if printable v then ret v else throw (TypeError cannot_convert).

(** [claimUSDC], the same in both scripts.  The templates of lines 82,
    86 and 87 of part_000 convert [result.message || ...] and
    [result.error || ...] to strings inside the [try]. *)
Definition claimUSDC (walletAddress chain : string) : M ClaimOutcome :=
  let chainConfig := lookup chain CHAINS in
  try_catch
    (chainName <- field "name" name chainConfig ;;
     emit (Console blue (MClaiming walletAddress chainName)) ;;
     id <- field "chainId" chainId chainConfig ;;
     tok <- field "token" token chainConfig ;;
     response <- fetch_post FAUCET_API
       {| req_address := walletAddress; req_chainId := id; req_token := tok |} ;;
     result <- json_of (snd response) ;;
     if res_ok (fst response)
     then
       shown <- read result "message" ;;
       line <- text (or_else shown (Some (JStr "USDC claimed successfully"))) ;;
       emit (Console green (MSuccess line)) ;;
       chainName <- field "name" name chainConfig ;;
       log (MLogSuccess walletAddress chainName) ;;
       msg <- read result "message" ;;
       ret {| success := true; outcome_message := msg; outcome_error := undefined |}
     else
       shown <- read result "error" ;;
       line <- text (or_else shown (Some (JStr "Unknown error"))) ;;
       emit (Console red (MFailed line)) ;;
       shown <- read result "error" ;;
       line <- text (or_else shown (Some (JStr "Unknown error"))) ;;
       chainName <- field "name" name chainConfig ;;
       log (MLogFailed line walletAddress chainName) ;;
       err <- read result "error" ;;
       ret {| success := false; outcome_message := undefined; outcome_error := err |})
    (fun error =>
       emit (Console red (MNetworkError (message error))) ;;
       chainName <- field "name" name chainConfig ;;
       log (MLogError walletAddress chainName (message error)) ;;
       ret {| success := false; outcome_message := undefined;
              outcome_error := Some (JStr (message error)) |}).

(** The [for (const wallet of wallets)] loop of [processChain], lines
    108-114 of part_000: [results] is the array pushed to. *)
Fixpoint claim_each (chain : string) (wallets : list string) (results : list Entry)
  : M (list Entry) :=
  match wallets with
  | [] => ret results
  | w :: rest =>
      r <- claimUSDC w chain ;;
      sleep 2000 ;;
      claim_each chain rest (results ++ [{| wallet := w; result := r |}])
  end.

Definition successful (results : list Entry) : nat :=
  List.length (filter (fun r => success (result r)) results).

Definition failed (results : list Entry) : nat :=
  List.length (filter (fun r => negb (success (result r))) results).

(** [!wallets || wallets.length === 0]. *)
Definition no_wallets (wallets : option (list string)) : bool :=
  match wallets with
  | None => true
  | Some [] => true
  | Some (_ :: _) => false
  end.

(** [await fs.readFile(...)] followed by [JSON.parse(data)]. *)
Definition read_wallet_file : M Wallets :=
  fun w s =>
    match wallet_file w with
    | inl e => (Thrown e, s)
    | inr wallets => (Ok wallets, s)
    end.

(** [await fs.writeFile(WALLET_FILE, ...)]. *)
Definition write_sample_file : M unit :=
  fun w s =>
    let s' := {| posts := posts s; appends := appends s;
                 trace := trace s ++ [WriteSample] |} in
    match sample_write w with
    | Some e => (Thrown e, s')
    | None => (Ok tt, s')
    end.

(** The events of a run of [m] from the initial state, and its
    completion. *)
Definition run {A : Type} (m : M A) (w : World) : Result A * State :=
  m w initial.

(** The claim requests among the events, in the order they were issued. *)
Fixpoint requests (evs : list Event) : list ClaimRequest :=
  match evs with
  | [] => []
  | Post _ body :: rest => body :: requests rest
  | _ :: rest => requests rest
  end.

End Faucet.

(** * src/unnamed/part_000: the one-shot script *)

Module Part000.

Import JS Http Faucet.

(** [loadWallets], lines 50-58. *)
Definition loadWallets : M Wallets :=
  try_catch read_wallet_file
    (fun error =>
       emit (Console red (MLoadFailed (message error))) ;;
       throw error).

(** [processChain], lines 99-124; [None] is the [undefined] of the bare
    [return]. *)
Definition processChain (chain : string) (wallets : option (list string))
  : M (option (list Entry)) :=
  if no_wallets wallets
  then
    chainName <- field "name" name (lookup chain CHAINS) ;;
    emit (Console yellow (MNoWallets chainName)) ;;
    ret None
  else
    let wallets := match wallets with Some ws => ws | None => [] end in
    chainName <- field "name" name (lookup chain CHAINS) ;;
    emit (Console blue (MProcessing (List.length wallets) chainName)) ;;
    results <- claim_each chain wallets [] ;;
    chainName <- field "name" name (lookup chain CHAINS) ;;
    emit (Console green
            (MChainSummary chainName (successful results) (failed results))) ;;
    chainName <- field "name" name (lookup chain CHAINS) ;;
    log (MLogSummary chainName (successful results) (failed results)) ;;
    ret (Some results).

(** The loop of lines 137-140: [allResults[chain] = results]. *)
Fixpoint process_chains (chains : list string) (wallets : Wallets)
    (allResults : list (string * option (list Entry)))
  : M (list (string * option (list Entry))) :=
  match chains with
  | [] => ret allResults
  | chain :: rest =>
      results <- processChain chain (lookup chain wallets) ;;
      process_chains rest wallets (assign chain results allResults)
  end.

(** The loop of lines 151-154: [chainResults.filter] is read on every
    value of [allResults], also on an [undefined] one. *)
Fixpoint total_stats (all : list (option (list Entry)))
    (totalSuccess totalFailed : nat) : M (nat * nat) :=
  match all with
  | [] => ret (totalSuccess, totalFailed)
  | chainResults :: rest =>
      s <- field "filter" successful chainResults ;;
      f <- field "filter" failed chainResults ;;
      total_stats rest (totalSuccess + s)%nat (totalFailed + f)%nat
  end.

(** [runFaucet], lines 127-164. *)
Definition runFaucet : M unit :=
  emit (Console green MBanner) ;;
  try_catch
    (wallets <- loadWallets ;;
     allResults <- process_chains (keys CHAINS) wallets [] ;;
     emit (Console green MCycleCompleted) ;;
     totals <- total_stats (values allResults) 0%nat 0%nat ;;
     emit (Console green (MFinalSummary (fst totals) (snd totals))) ;;
     log (MLogFinal (fst totals) (snd totals)))
    (fun error =>
       emit (Console red (MFatal (message error))) ;;
       log (MLogFatal (message error)) ;;
       exit 1).

(** The script run as the main module, lines 167-169. *)
Definition main : M unit := runFaucet.

End Part000.

(** * src/faucet-automation.js: the script that reschedules itself *)

Module FaucetAutomation.

Import JS Http Faucet.

Definition sampleWallets : Wallets :=
  [ ("avalanche_fuji", ["0x6021e09E8Cd947701E2368D60239C04486118f18"]);
    ("ethereum_sepolia", ["0x6021e09E8Cd947701E2368D60239C04486118f18"]);
    ("base_sepolia", ["0x6021e09E8Cd947701E2368D60239C04486118f18"]) ].

(** [error.code === 'ENOENT']. *)
Definition is_ENOENT (e : Error) : bool :=
  match code e with
  | Some c => String.eqb c "ENOENT"
  | None => false
  end.

(** [loadWallets], lines 53-77. *)
Definition loadWallets : M Wallets :=
  try_catch read_wallet_file
    (fun error =>
       if is_ENOENT error
       then
         write_sample_file ;;
         emit (Console green MCreatedSample) ;;
         ret sampleWallets
       else throw error).

(** [processChain], lines 118-141: it returns nothing. *)
Definition processChain (chain : string) (wallets : option (list string))
  : M unit :=
  if no_wallets wallets
  then
    chainName <- field "name" name (lookup chain CHAINS) ;;
    emit (Console yellow (MNoWallets chainName))
  else
    let wallets := match wallets with Some ws => ws | None => [] end in
    chainName <- field "name" name (lookup chain CHAINS) ;;
    emit (Console blue (MProcessing (List.length wallets) chainName)) ;;
    results <- claim_each chain wallets [] ;;
    chainName <- field "name" name (lookup chain CHAINS) ;;
    emit (Console green
            (MChainSummary chainName (successful results) (failed results))) ;;
    chainName <- field "name" name (lookup chain CHAINS) ;;
    log (MLogSummary chainName (successful results) (failed results)).

(** The loop of lines 154-156. *)
Fixpoint process_chains (chains : list string) (wallets : Wallets) : M unit :=
  match chains with
  | [] => ret tt
  | chain :: rest =>
      processChain chain (lookup chain wallets) ;;
      process_chains rest wallets
  end.

(** [runFaucet], lines 144-169. *)
Definition runFaucet : M unit :=
  emit (Console green MRule) ;;
  emit (Console green MBanner) ;;
  emit (Console green MRule) ;;
  try_catch
    (wallets <- loadWallets ;;
     process_chains (keys CHAINS) wallets)
    (fun error =>
       emit (Console red (MFatal (message error))) ;;
       log (MLogFatal (message error))) ;;
  emit (Console green MCycleCompleted) ;;
  emit (Console blue MNextRun) ;;
  log MLogCycle.

Definition CLAIM_INTERVAL : Z := 60 * 60 * 1000.

(** The script run as the main module, lines 183-194:
    [runFaucet().then(() => setInterval(...)).catch(...)]. *)
Definition main : M unit :=
  emit (Console green MStarting) ;;
  try_catch
    (runFaucet ;;
     emit (SetInterval CLAIM_INTERVAL))
    (fun error =>
       emit (Console red (MFailedToStart (message error))) ;;
       exit 1).

End FaucetAutomation.

(** * Notions used to state the properties of the poller *)

Module PollerNotions.

Import JS Http Server.

(** The payload a poll attempt returns, if the answer it met is a ready
    one.  It is read off the [try]/[catch] statement itself. *)
Definition ready_payload (f : FetchResult) : option JSON :=
  match snd (try_catch "" 0 f) with
  | ReturnC json => Some json
  | _ => None
  end.

(** A transient failure of one attempt: the network failed, the answer
    was not a success, the body was not JSON, or the body was [null]. *)
Definition transient (f : FetchResult) : bool :=
  match f with
  | FetchRejects _ => true
  | FetchResponse status _ body =>
      negb (res_ok status)
      || match body with
         | BodyMalformed _ => true
         | BodyJSON JNull => true
         | BodyJSON _ => false
         end
  end.

(** The attempt did not return: control reached the deadline check, which
    either lets the loop go on or raises the timeout. *)
Definition falls_through (w : World) (hash : string) (i : nat) : Prop :=
  snd (iteration w hash i)
  = if now_check (attempt w i) - start w >? timeout
    then Throw (timeout_message hash)
    else Continue.

(** The outcome alone, without the events. *)
Definition outcome_of (r : option (Outcome * list Event)) : option Outcome :=
  match r with
  | Some (o, _) => Some o
  | None => None
  end.

(** The spec's comparison with the sentinel: equality with "pending"
    after folding upper-case ASCII letters to lower case. *)
Definition lower_ascii (c : Ascii.ascii) : Ascii.ascii :=
  let n := Ascii.nat_of_ascii c in
  if (Nat.leb 65 n && Nat.leb n 90)%bool
  then Ascii.ascii_of_nat (n + 32)
  else c.

Fixpoint lower (s : string) : string :=
  match s with
  | EmptyString => EmptyString
  | String c rest => String (lower_ascii c) (lower rest)
  end.

Definition is_pending_ignoring_case (v : JSON) : bool :=
  match v with
  | JStr s => String.eqb (lower s) "pending"
  | _ => false
  end.



(** Wall-clock time strictly advances from one deadline check to the
    next. *)
Definition clock_advances (w : World) : Prop :=
  forall i, now_check (attempt w i) < now_check (attempt w (S i)).

(** *** Sample worlds *)

(** A world whose every attempt meets the same answer, [interval]
    milliseconds apart, starting at time 0. *)
Definition steady (interval : Z) (f : FetchResult) : World :=
  {| start := 0;
     attempt := fun i =>
       {| now_top := interval * Z.of_nat i;
          fetched := f;
          now_check := interval * Z.of_nat i + 100 |} |}.

Definition answer (json : JSON) : FetchResult :=
  FetchResponse 200 "OK" (BodyJSON json).

Definition complete_but_pending : JSON :=
  JObj [("status", JStr "complete"); ("attestation", JStr "PENDING")].

Definition mixed_case_pending : JSON :=
  JObj [("attestation", JStr "Pending")].

Definition still_pending : JSON :=
  JObj [("status", JStr "pending_confirmations"); ("attestation", JStr "PENDING")].

Definition signed : JSON :=
  JObj [("status", JStr "complete"); ("attestation", JStr "0x5a17")].

(** Every attempt is pending and the first deadline check already comes
    200 seconds after the start. *)
Definition late_world : World :=
  {| start := 0;
     attempt := fun i =>
       {| now_top := 200000 + Z.of_nat i;
          fetched := answer still_pending;
          now_check := 200000 + Z.of_nat i |} |}.

(** Two network failures, then the signed attestation. *)
Definition flaky_world : World :=
  {| start := 0;
     attempt := fun i =>
       {| now_top := 3000 * Z.of_nat i;
          fetched := if Nat.ltb i 2 then FetchRejects "ECONNRESET"
                     else answer signed;
          now_check := 3000 * Z.of_nat i + 100 |} |}.

(** The same clock with pending answers in place of the failures. *)
Definition patient_world : World :=
  {| start := 0;
     attempt := fun i =>
       {| now_top := 3000 * Z.of_nat i;
          fetched := if Nat.ltb i 2 then answer still_pending
                     else answer signed;
          now_check := 3000 * Z.of_nat i + 100 |} |}.

End PollerNotions.

(** * Notions used to state the properties of the faucet automation *)

Module FaucetNotions.

Import JS Http Faucet.

(** The request [claimUSDC] sends for a wallet on a configured chain. *)
Definition request_for (cfg : ChainConfig) (walletAddress : string)
  : ClaimRequest :=
  {| req_address := walletAddress;
     req_chainId := chainId cfg;
     req_token := token cfg |}.

(** The answers after which [claimUSDC] reports success: a 2xx status
    with a JSON body other than [null] whose [message] is falsy or can be
    converted to a string. *)
Definition claim_succeeds (f : FetchResult) : bool :=
  match f with
  | FetchRejects _ => false
  | FetchResponse status _ body =>
      res_ok status
      && match body with
         | BodyMalformed _ => false
         | BodyJSON json =>
             match prop json "message" with
             | inl _ => false
             | inr v => shows v
             end
         end
  end.

(** The answers the faucet gives to the wallets of one chain, claimed in
    order from the [n]-th request of the run on. *)
Fixpoint answers (w : World) (cfg : ChainConfig) (n : nat) (wallets : list string)
  : list FetchResult :=
  match wallets with
  | [] => []
  | x :: rest => faucet w n (request_for cfg x) :: answers w cfg (S n) rest
  end.

Definition wallets_of (wallets : option (list string)) : list string :=
  match wallets with
  | Some ws => ws
  | None => []
  end.

(** The requests for the wallets of the given chains, chain by chain,
    each chain in the order of its list. *)
Definition planned_for (chains : list (string * ChainConfig)) (wallets : Wallets)
  : list ClaimRequest :=
  flat_map
    (fun kc => map (request_for (snd kc)) (wallets_of (lookup (fst kc) wallets)))
    chains.

(** Every wallet of every configured chain, in the order of [CHAINS]. *)
Definition planned (wallets : Wallets) : list ClaimRequest :=
  planned_for CHAINS wallets.

(** The state after [evs] more events, of which [p] are POSTs and [a] are
    log lines. *)
Definition after (s : State) (p a : nat) (evs : list Event) : State :=
  {| posts := posts s + p; appends := appends s + a; trace := trace s ++ evs |}.

(** *** Sample worlds *)

Definition accepted : FetchResult :=
  FetchResponse 200 "OK" (BodyJSON (JObj [("message", JStr "sent")])).

Definition rejected : FetchResult :=
  FetchResponse 429 "Too Many Requests"
    (BodyJSON (JObj [("error", JStr "rate limited")])).

(** The faucet rejects the second request of the run and accepts the
    others; the wallet file lists three wallets on one chain. *)
Definition second_fails : World :=
  {| wallet_file := inr [("base_sepolia", ["0xa1"; "0xb2"; "0xc3"])];
     sample_write := None;
     faucet := fun n _ => if Nat.eqb n 1 then rejected else accepted;
     log_append := fun _ => None |}.

(** The wallet file is not JSON. *)
Definition corrupt_file : World :=
  {| wallet_file :=
       inl {| code := None; message := "Unexpected end of JSON input" |};
     sample_write := None;
     faucet := fun _ _ => accepted;
     log_append := fun _ => None |}.

(** What [log] adds to the trace. *)
Definition log_events (m : Message) (w : World) (s : State) : list Event :=
  [Console plain m; Append m]
  ++ match log_append w (appends s) with
     | Some msg => [Console red (MLogWriteFailed msg)]
     | None => []
     end.

End FaucetNotions.

(** * src/server.js: the endpoints of the proxy *)

Module Proxy.

Import JS Http Server.

(** A call [res.status(status).json(value)] on the response object of
    Express; [res.json(value)] alone leaves the status at 200.  The record
    holds the arguments of the call.  Express then sends
    [JSON.stringify(value)]; that serialisation (in which a non-finite
    number becomes [null] and [-0] becomes [0]) belongs to the framework
    and is not modelled. *)
Record JsonCall : Type := {
  call_status : Z;
  call_value : JSON
}.

(** The events of one request to [/attestations/:hash]: the console lines
    of the handler, the events of the poll it awaits, and its call of
    [res.json]. *)
Inductive Event : Type :=
| Received (hash : string)
| Polling (e : Server.Event)
| Sending
| Failed (message : string)
| Responded (c : JsonCall).


(** The handler of [GET /health], lines 97-99: its call of [res.json]. *)
Definition health : JsonCall :=
  {| call_status := 200;
     call_value := JObj [("status", JStr "ok"); ("iris_api", JStr IRIS)] |}.

End Proxy.

(** * Further notions: what a poll and a run do to the outside *)

Module PollerViews.

Import JS Http Server.

(** The address polled for an identifier. *)
Definition url (hash : string) : string := (IRIS ++ "/" ++ hash)%string.

(** The events that reach the network or the timer. *)
Definition is_wire (e : Event) : bool :=
  match e with
  | EvGet _ => true
  | EvSleep _ => true
  | _ => false
  end.

(** [k] rounds of a request followed by the poll interval, then one last
    request. *)
Fixpoint rounds (hash : string) (k : nat) : list Event :=
  match k with
  | O => [EvGet (url hash)]
  | S k' => EvGet (url hash) :: EvSleep 3000 :: rounds hash k'
  end.


(** An object whose only field is a status. *)
Definition status_only (status : string) : JSON :=
  JObj [("status", JStr status)].

End PollerViews.

Module FaucetViews.

Import JS Http Faucet FaucetNotions.

(** The events that reach beyond the console and the log file: requests,
    suspensions, the sample file, the timer, the exit. *)
Definition is_effect (e : Event) : bool :=
  match e with
  | Console _ _ => false
  | Append _ => false
  | _ => true
  end.

Definition effects (evs : list Event) : list Event := filter is_effect evs.

(** Each request sent to the faucet and followed by the pause of two
    seconds. *)
Definition paced (reqs : list ClaimRequest) : list Event :=
  flat_map (fun r => [Post FAUCET_API r; Sleep 2000]) reqs.

(** The lines appended to the log file, in order. *)
Fixpoint appended (evs : list Event) : list Message :=
  match evs with
  | [] => []
  | Append m :: rest => m :: appended rest
  | _ :: rest => appended rest
  end.

(** Some configured chain has no wallets in the wallet file. *)
Definition skips_a_chain (wallets : Wallets) : bool :=
  existsb (fun chain => no_wallets (lookup chain wallets)) (keys CHAINS).

(** The answers of the faucet to the requests of a run over the given
    chains, the first of them being the [n]-th request of the run. *)
Fixpoint run_answers (w : World) (n : nat) (chains : list (string * ChainConfig))
    (wallets : Wallets) : list FetchResult :=
  match chains with
  | [] => []
  | (chain, cfg) :: rest =>
      answers w cfg n (wallets_of (lookup chain wallets))
      ++ run_answers w (n + List.length (wallets_of (lookup chain wallets)))
           rest wallets
  end.

(** What a run of the rescheduling script does beyond printing and
    logging, read off the wallet file and the file system alone. *)
Definition rescheduling_effects (w : World) : list Event :=
  match wallet_file w with
  | inr wallets => paced (planned wallets)
  | inl e =>
      if FaucetAutomation.is_ENOENT e
      then WriteSample
           :: match sample_write w with
              | None => paced (planned FaucetAutomation.sampleWallets)
              | Some _ => []
              end
      else []
  end.

(** The same for the one-shot script. *)
Definition one_shot_effects (w : World) : list Event :=
  match wallet_file w with
  | inr wallets =>
      paced (planned wallets)
      ++ (if skips_a_chain wallets then [ExitProcess 1] else [])
  | inl _ => [ExitProcess 1]
  end.

(** How a run of the one-shot script completes. *)
Definition one_shot_completion (w : World) : Result unit :=
  match wallet_file w with
  | inr wallets => if skips_a_chain wallets then Exited 1 else Ok tt
  | inl _ => Exited 1
  end.

(** The wallet file does not exist and the sample file can be written. *)
Definition first_run : World :=
  {| wallet_file :=
       inl {| code := Some "ENOENT";
              message := "ENOENT: no such file or directory, open './wallets.json'" |};
     sample_write := None;
     faucet := fun _ _ => accepted;
     log_append := fun _ => None |}.

(** Every chain has wallets; the log file cannot be written. *)
Definition all_chains : World :=
  {| wallet_file :=
       inr [ ("avalanche_fuji", ["0xa1"]);
             ("ethereum_sepolia", ["0xb2"; "0xc3"]);
             ("base_sepolia", ["0xd4"]) ];
     sample_write := None;
     faucet := fun n _ => if Nat.eqb n 1 then rejected else accepted;
     log_append := fun _ => Some "EACCES: permission denied" |}.

End FaucetViews.

(** * Properties of the attestation poller *)

Module ServerProps.

Import JS Http Server PollerNotions.

(** ** The shape of one attempt *)

Lemma inspect_completion elapsed elapsed' json status attestation :
  snd (inspect elapsed json status attestation)
  = snd (inspect elapsed' json status attestation).
Proof.
  unfold inspect.
  destruct (truthy status && negb (printable status)); [reflexivity|].
  destruct (truthy attestation && _ && _); [reflexivity|].
  destruct (strict_eq_str status "pending_confirmations"); [reflexivity|].
  destruct (strict_eq_str status "complete"); [|reflexivity].
  destruct (truthy attestation); reflexivity.
Qed.

Lemma try_block_completion hash elapsed hash' elapsed' f :
  snd (try_block hash elapsed f) = snd (try_block hash' elapsed' f).
Proof.
  unfold try_block.
  destruct f as [m | status statusText body]; [reflexivity|].
  destruct (negb (res_ok status)); [reflexivity|].
  destruct body as [m | json]; [reflexivity|].
  destruct (prop json "status") as [m | st]; [reflexivity|].
  destruct (prop json "attestation") as [m | att]; [reflexivity|].
  pose proof (inspect_completion elapsed elapsed' json st att) as H.
  destruct (inspect elapsed json st att), (inspect elapsed' json st att).
  exact H.
Qed.

Lemma try_catch_completion hash elapsed f :
  snd (try_catch hash elapsed f)
  = match ready_payload f with
    | Some json => ReturnC json
    | None => Normal
    end.
Proof.
  unfold ready_payload, try_catch.
  pose proof (try_block_completion hash elapsed "" 0 f) as H.
  destruct (try_block hash elapsed f) as [evs c].
  destruct (try_block "" 0 f) as [evs' c'].
  simpl in H. subst c'.
  destruct c; reflexivity.
Qed.

(** One pass either returns the ready payload or reaches the deadline
    check, which ends it with the timeout line or with the suspension. *)
Lemma iteration_shape w hash i :
  exists evs,
    iteration w hash i
    = match ready_payload (fetched (attempt w i)) with
      | Some json => (evs, Return json)
      | None =>
          if now_check (attempt w i) - start w >? timeout
          then (evs ++ [EvTimeout 180], Throw (timeout_message hash))
          else (evs ++ [EvSleep 3000], Continue)
      end.
Proof.
  unfold iteration.
  pose proof (try_catch_completion hash
                ((now_top (attempt w i) - start w) / 1000)
                (fetched (attempt w i))) as H.
  destruct (try_catch hash _ (fetched (attempt w i))) as [evs c].
  simpl in H. subst c. exists evs.
  destruct (ready_payload (fetched (attempt w i))); reflexivity.
Qed.

Lemma iteration_step w hash i :
  snd (iteration w hash i)
  = match ready_payload (fetched (attempt w i)) with
    | Some json => Return json
    | None =>
        if now_check (attempt w i) - start w >? timeout
        then Throw (timeout_message hash)
        else Continue
    end.
Proof.
  destruct (iteration_shape w hash i) as [evs ->].
  destruct (ready_payload (fetched (attempt w i))); [reflexivity|].
  destruct (now_check (attempt w i) - start w >? timeout); reflexivity.
Qed.

Lemma transient_not_ready f : transient f = true -> ready_payload f = None.
Proof.
  unfold transient, ready_payload, try_catch, try_block.
  destruct f as [m | status statusText body]; [reflexivity|].
  destruct (res_ok status); simpl; [|reflexivity].
  destruct body as [m | json]; [reflexivity|].
  destruct json; try discriminate; reflexivity.
Qed.

(** A ready payload is the parsed body of a successful answer whose
    [status] gets through line 42 and whose [attestation] is truthy and
    either is none of the two sentinels or comes with the status
    "complete". *)
Lemma ready_payload_spec status statusText json st att :
  res_ok status = true ->
  prop json "status" = inr st ->
  prop json "attestation" = inr att ->
  ready_payload (FetchResponse status statusText (BodyJSON json))
  = if shows st
       && truthy att
       && (negb (strict_eq_str att "PENDING") && negb (strict_eq_str att "pending")
           || strict_eq_str st "complete")
    then Some json
    else None.
Proof.
  intros Hok Hst Hatt.
  unfold ready_payload, try_catch, try_block.
  rewrite Hok, Hst, Hatt. simpl negb. cbv iota.
  unfold inspect, shows.
  destruct (truthy st) eqn:Hts; simpl.
  - destruct (printable st); simpl; [|reflexivity].
    destruct (truthy att); simpl.
    + destruct (strict_eq_str att "PENDING"); simpl.
      * destruct (strict_eq_str st "pending_confirmations") eqn:E1.
        -- destruct st as [[| | |s| |]|]; try discriminate.
           simpl in E1. apply String.eqb_eq in E1. subst s. reflexivity.
        -- destruct (strict_eq_str st "complete"); reflexivity.
      * destruct (strict_eq_str att "pending"); simpl.
        -- destruct (strict_eq_str st "pending_confirmations") eqn:E1.
           ++ destruct st as [[| | |s| |]|]; try discriminate.
              simpl in E1. apply String.eqb_eq in E1. subst s. reflexivity.
           ++ destruct (strict_eq_str st "complete"); reflexivity.
        -- reflexivity.
    + destruct (strict_eq_str st "pending_confirmations");
        [|destruct (strict_eq_str st "complete")]; reflexivity.
  - destruct (truthy att); simpl.
    + destruct (strict_eq_str att "PENDING"); simpl.
      * destruct (strict_eq_str st "pending_confirmations") eqn:E1.
        -- destruct st as [[| | |s| |]|]; try discriminate.
           simpl in E1. apply String.eqb_eq in E1. subst s. reflexivity.
        -- destruct (strict_eq_str st "complete"); reflexivity.
      * destruct (strict_eq_str att "pending"); simpl.
        -- destruct (strict_eq_str st "pending_confirmations") eqn:E1.
           ++ destruct st as [[| | |s| |]|]; try discriminate.
              simpl in E1. apply String.eqb_eq in E1. subst s. reflexivity.
           ++ destruct (strict_eq_str st "complete"); reflexivity.
        -- reflexivity.
    + destruct (strict_eq_str st "pending_confirmations");
        [|destruct (strict_eq_str st "complete")]; reflexivity.
Qed.

(** ** The loop *)

Lemma poll_loop_more_fuel w hash fuel : forall i r extra,
  poll_loop fuel w hash i = Some r ->
  poll_loop (fuel + extra) w hash i = Some r.
Proof.
  induction fuel as [|fuel IH]; intros i r extra H; [discriminate|].
  simpl in *.
  destruct (iteration w hash i) as [evs [json | m |]]; try exact H.
  destruct (poll_loop fuel w hash (S i)) as [[o rest]|] eqn:E; [|discriminate].
  rewrite (IH _ _ extra E). exact H.
Qed.

Lemma poll_loop_deterministic w hash i fuel fuel' r r' :
  poll_loop fuel w hash i = Some r ->
  poll_loop fuel' w hash i = Some r' ->
  r = r'.
Proof.
  intros H H'.
  apply (poll_loop_more_fuel _ _ _ _ _ fuel') in H.
  apply (poll_loop_more_fuel _ _ _ _ _ fuel) in H'.
  rewrite Nat.add_comm in H'. congruence.
Qed.

(** With a clock that advances, the deadline check fails after at most
    [timeout] further passes. *)
Lemma poll_loop_terminates w hash :
  clock_advances w ->
  forall n i,
    start w + timeout + 1 - now_check (attempt w i) <= Z.of_nat n ->
    exists r, poll_loop (S n) w hash i = Some r.
Proof.
  intros Hclock.
  induction n as [|n IH]; intros i Hi.
  - simpl. pose proof (iteration_step w hash i) as Hstep.
    destruct (iteration w hash i) as [evs [json | m |]]; eauto.
    simpl in Hstep.
    destruct (ready_payload (fetched (attempt w i))); [discriminate|].
    destruct (now_check (attempt w i) - start w >? timeout) eqn:E;
      [discriminate|].
    unfold timeout in *. lia.
  - change (poll_loop (S (S n)) w hash i)
      with (match iteration w hash i with
            | (evs, Return json) => Some (Resolved json, evs)
            | (evs, Throw m) => Some (Rejected m, evs)
            | (evs, Continue) =>
                match poll_loop (S n) w hash (S i) with
                | Some (o, rest) => Some (o, evs ++ rest)
                | None => None
                end
            end).
    destruct (iteration w hash i) as [evs [json | m |]]; eauto.
    destruct (IH (S i)) as [[o rest] Hr].
    + specialize (Hclock i). lia.
    + rewrite Hr. eauto.
Qed.

(** What a rejection of the loop tells. *)
Lemma poll_loop_rejected w hash fuel : forall i m evs,
  poll_loop fuel w hash i = Some (Rejected m, evs) ->
  exists k,
    (i <= k < i + fuel)%nat
    /\ now_check (attempt w k) - start w > timeout
    /\ (forall j, (i <= j < k)%nat ->
          now_check (attempt w j) - start w <= timeout)
    /\ (forall j, (i <= j <= k)%nat ->
          ready_payload (fetched (attempt w j)) = None)
    /\ m = timeout_message hash
    /\ exists before, evs = before ++ [EvTimeout 180].
Proof.
  induction fuel as [|fuel IH]; intros i m evs H; [discriminate|].
  simpl in H.
  destruct (iteration_shape w hash i) as [tevs Hit]. rewrite Hit in H.
  destruct (ready_payload (fetched (attempt w i))) as [json|] eqn:Er;
    [discriminate|].
  destruct (now_check (attempt w i) - start w >? timeout) eqn:E.
  - injection H as Hm Hevs. exists i.
    repeat split; try lia.
    + intros j Hj. assert (j = i) by lia. subst j. exact Er.
    + congruence.
    + exists tevs. symmetry. exact Hevs.
  - destruct (poll_loop fuel w hash (S i)) as [[o rest]|] eqn:Eloop;
      [|discriminate].
    injection H as Ho Hevs. subst o.
    destruct (IH _ _ _ Eloop)
      as (k & Hk & Hlate & Hearly & Hnr & Hm & before & Hb).
    exists k. repeat split; try lia.
    + intros j Hj. destruct (Nat.eq_dec j i) as [->|Hne].
      * lia.
      * apply Hearly. lia.
    + intros j Hj. destruct (Nat.eq_dec j i) as [->|Hne].
      * exact Er.
      * apply Hnr. lia.
    + exact Hm.
    + exists ((tevs ++ [EvSleep 3000]) ++ before).
      rewrite <- Hevs, Hb, app_assoc. reflexivity.
Qed.

(** The outcome of the loop is a function of the ready payloads and of
    the deadline checks. *)
Lemma poll_loop_outcome_ext w w' hash fuel : forall i,
  start w = start w' ->
  (forall j, now_check (attempt w j) = now_check (attempt w' j)) ->
  (forall j, ready_payload (fetched (attempt w j))
             = ready_payload (fetched (attempt w' j))) ->
  outcome_of (poll_loop fuel w hash i) = outcome_of (poll_loop fuel w' hash i).
Proof.
  intros i Hs Hc Hr. revert i.
  induction fuel as [|fuel IH]; intros i; [reflexivity|].
  simpl.
  pose proof (iteration_step w hash i) as H.
  pose proof (iteration_step w' hash i) as H'.
  rewrite <- Hr, <- Hc, <- Hs in H'.
  specialize (IH (S i)).
  destruct (iteration w hash i) as [evs st].
  destruct (iteration w' hash i) as [evs' st'].
  simpl in H, H'. rewrite <- H in H'. subst st'.
  destruct st; try reflexivity.
  destruct (poll_loop fuel w hash (S i)) as [[o rest]|];
    destruct (poll_loop fuel w' hash (S i)) as [[o' rest']|];
    simpl in *; congruence.
Qed.

(** ** The text of the timeout error *)








(** ** The claims about [pollAttestation] *)

(** C1 (the code departs from the claim).  The claim: while the
    [attestation] field is absent or holds a pending sentinel, the attempt
    goes on polling, whatever [status] says.  The code: a successful
    answer with status "complete" whose attestation is the sentinel
    "PENDING" or "pending" is returned as ready on that very attempt, by
    the second test of line 56, although line 46 has just classified it
    as not ready. *)
Theorem complete_status_returns_pending_attestation
    w hash i status statusText json sentinel :
  fetched (attempt w i) = FetchResponse status statusText (BodyJSON json) ->
  res_ok status = true ->
  prop json "status" = inr (Some (JStr "complete")) ->
  prop json "attestation" = inr (Some (JStr sentinel)) ->
  sentinel = "PENDING" \/ sentinel = "pending" ->
  snd (iteration w hash i) = Return json.
Proof.
  intros Hf Hok Hst Hatt Hsentinel.
  rewrite iteration_step, Hf.
  rewrite (ready_payload_spec _ _ _ _ _ Hok Hst Hatt).
  destruct Hsentinel as [-> | ->]; reflexivity.
Qed.

Lemma complete_status_returns_pending_attestation_witness :
  snd (iteration (steady 3000 (answer complete_but_pending)) "0xabc" 0)
  = Return complete_but_pending.
Proof.
  exact (complete_status_returns_pending_attestation
           (steady 3000 (answer complete_but_pending)) "0xabc" 0%nat
           200 "OK" complete_but_pending "PENDING"
           eq_refl eq_refl eq_refl eq_refl (or_introl eq_refl)).
Defined.

(** The whole poll on such an answer: one request, and the pending
    payload is handed back as ready. *)
Example complete_but_pending_resolves_at_once :
  pollAttestation 1 (steady 3000 (answer complete_but_pending)) "0xabc"
  = Some (Resolved complete_but_pending,
          [ EvStart "0xabc";
            EvGet "https://iris-api-sandbox.circle.com/v1/attestations/0xabc";
            EvStatus 0 (Some (JStr "complete"));
            EvReadyComplete ]).
Proof. reflexivity. Qed.

(** The half of C1 that the code keeps: with no [attestation] field the
    attempt never returns, whatever the status. *)
Lemma absent_attestation_falls_through w hash i status statusText json st :
  fetched (attempt w i) = FetchResponse status statusText (BodyJSON json) ->
  prop json "status" = inr st ->
  prop json "attestation" = inr undefined ->
  falls_through w hash i.
Proof.
  intros Hf Hst Hatt. unfold falls_through.
  rewrite iteration_step, Hf.
  destruct (res_ok status) eqn:Hok.
  - rewrite (ready_payload_spec _ _ _ _ _ Hok Hst Hatt).
    simpl truthy. rewrite andb_false_r. reflexivity.
  - rewrite transient_not_ready; [reflexivity|].
    simpl. rewrite Hok. reflexivity.
Qed.

(** C2, as stated, fails: the attestation "Pending" equals the sentinel
    when case is ignored, yet the attempt that meets it returns it. *)
Lemma mixed_case_pending_is_returned :
  is_pending_ignoring_case (JStr "Pending") = true
  /\ prop mixed_case_pending "attestation" = inr (Some (JStr "Pending"))
  /\ snd (iteration (steady 3000 (answer mixed_case_pending)) "0xabc" 0)
     = Return mixed_case_pending.
Proof. repeat split. Qed.

(** C2 (amended).  On an attempt whose successful answer carries an
    [attestation] field: if the [status] field is falsy or can be
    converted to a string, a truthy attestation other than exactly
    "PENDING" and exactly "pending" makes the attempt return that answer;
    a falsy attestation (empty string, [null], [false], 0) lets polling
    continue; so does one of the two sentinels, when the status is not
    "complete"; and so does any attestation when the status is truthy but
    cannot be converted to a string, the [TypeError] of line 42 being
    caught. *)
Theorem attestation_field_decides w hash i status statusText json st att :
  fetched (attempt w i) = FetchResponse status statusText (BodyJSON json) ->
  res_ok status = true ->
  prop json "status" = inr st ->
  prop json "attestation" = inr (Some att) ->
  (shows st = true ->
   truthy (Some att) = true -> att <> JStr "PENDING" -> att <> JStr "pending" ->
   snd (iteration w hash i) = Return json)
  /\ (truthy (Some att) = false -> falls_through w hash i)
  /\ (att = JStr "PENDING" \/ att = JStr "pending" ->
      strict_eq_str st "complete" = false ->
      falls_through w hash i)
  /\ (shows st = false -> falls_through w hash i).
Proof.
  intros Hf Hok Hst Hatt.
  unfold falls_through. rewrite iteration_step, Hf.
  rewrite (ready_payload_spec _ _ _ _ _ Hok Hst Hatt).
  repeat split.
  - intros Hs Ht Hupper Hlower. rewrite Hs, Ht.
    assert (strict_eq_str (Some att) "PENDING" = false) as ->.
    { destruct att; try reflexivity. simpl.
      apply String.eqb_neq. congruence. }
    assert (strict_eq_str (Some att) "pending" = false) as ->.
    { destruct att; try reflexivity. simpl.
      apply String.eqb_neq. congruence. }
    reflexivity.
  - intros Ht. rewrite Ht, andb_false_r. reflexivity.
  - intros [-> | ->] Hc; rewrite Hc; simpl;
      rewrite ?andb_false_r; reflexivity.
  - intros Hs. rewrite Hs. reflexivity.
Qed.

Lemma attestation_field_decides_witness :
  snd (iteration (steady 3000 (answer signed)) "0xabc" 0) = Return signed.
Proof.
  refine (proj1 (attestation_field_decides
                   (steady 3000 (answer signed)) "0xabc" 0%nat
                   200 "OK" signed (Some (JStr "complete")) (JStr "0x5a17")
                   eq_refl eq_refl eq_refl eq_refl) eq_refl eq_refl _ _);
    discriminate.
Defined.




(** C4.  A transient failure (network failure, non-success answer,
    malformed or [null] body) never ends the poll while the deadline
    check passes, and the outcome of the whole poll is the same as that
    of a run in which any of the failures is replaced by an answer that
    is not ready: only the ready payloads and the clock decide it, never
    how many failures occurred. *)
Theorem transient_errors_do_not_decide w w' hash fuel :
  start w = start w' ->
  (forall i, now_check (attempt w i) = now_check (attempt w' i)) ->
  (forall i,
     fetched (attempt w i) = fetched (attempt w' i)
     \/ (transient (fetched (attempt w i)) = true
         /\ ready_payload (fetched (attempt w' i)) = None)) ->
  (forall i,
     transient (fetched (attempt w i)) = true ->
     now_check (attempt w i) - start w <= timeout ->
     snd (iteration w hash i) = Continue)
  /\ (forall i,
       transient (fetched (attempt w i)) = true ->
       forall json, snd (iteration w hash i) <> Return json)
  /\ outcome_of (pollAttestation fuel w hash)
     = outcome_of (pollAttestation fuel w' hash).
Proof.
  intros Hs Hc Hf. repeat split.
  - intros i Ht Hd. rewrite iteration_step, (transient_not_ready _ Ht).
    destruct (now_check (attempt w i) - start w >? timeout) eqn:E;
      [lia | reflexivity].
  - intros i Ht json. rewrite iteration_step, (transient_not_ready _ Ht).
    destruct (now_check (attempt w i) - start w >? timeout); discriminate.
  - assert (H : outcome_of (poll_loop fuel w hash 0)
                = outcome_of (poll_loop fuel w' hash 0)).
    { apply poll_loop_outcome_ext; try assumption.
      intros j. destruct (Hf j) as [-> | [Ht Hn]]; [reflexivity|].
      rewrite Hn. apply transient_not_ready, Ht. }
    unfold pollAttestation.
    destruct (poll_loop fuel w hash 0) as [[o evs]|];
      destruct (poll_loop fuel w' hash 0) as [[o' evs']|]; exact H.
Qed.

Lemma transient_errors_do_not_decide_witness :
  outcome_of (pollAttestation 3 flaky_world "0xabc") = Some (Resolved signed)
  /\ outcome_of (pollAttestation 3 flaky_world "0xabc")
     = outcome_of (pollAttestation 3 patient_world "0xabc").
Proof.
  split; [reflexivity|].
  refine (proj2 (proj2 (transient_errors_do_not_decide
                          flaky_world patient_world "0xabc" 3 eq_refl
                          (fun i => eq_refl) _))).
  intros [|[|i]]; simpl; auto.
Defined.

(** C9.  With a clock that strictly advances from one deadline check to
    the next, every invocation of [pollAttestation] settles: some number
    of passes yields an outcome, every larger number yields the same one,
    no other outcome is ever yielded, and the outcome is either the
    returned payload or the timeout error. *)
Theorem poll_settles_exactly_once w hash :
  clock_advances w ->
  exists fuel o evs,
    (forall more, pollAttestation (fuel + more) w hash = Some (o, evs))
    /\ (forall fuel' r, pollAttestation fuel' w hash = Some r -> r = (o, evs))
    /\ ((exists json, o = Resolved json /\ o <> Rejected (timeout_message hash))
        \/ (o = Rejected (timeout_message hash)
            /\ forall json, o <> Resolved json)).
Proof.
  intros Hclock.
  destruct (poll_loop_terminates w hash Hclock
              (Z.to_nat (start w + timeout + 1 - now_check (attempt w 0))) 0%nat)
    as [[o rest] Hr]; [lia|].
  set (fuel := S (Z.to_nat (start w + timeout + 1 - now_check (attempt w 0))))
    in Hr.
  exists fuel, o, (EvStart hash :: rest).
  split; [|split].
  - intros more. unfold pollAttestation.
    rewrite (poll_loop_more_fuel _ _ _ _ _ more Hr). reflexivity.
  - intros fuel' r H. unfold pollAttestation in H.
    destruct (poll_loop fuel' w hash 0) as [[o' rest']|] eqn:E; [|discriminate].
    pose proof (poll_loop_deterministic _ _ _ _ _ _ _ Hr E) as Heq.
    injection Heq as -> ->. congruence.
  - destruct o as [json | m].
    + left. exists json. split; [reflexivity | discriminate].
    + right.
      destruct (poll_loop_rejected _ _ _ _ _ _ Hr)
        as (k & _ & _ & _ & _ & -> & _).
      split; [reflexivity | discriminate].
Qed.

Lemma poll_settles_exactly_once_witness :
  exists fuel o evs,
    forall more,
      pollAttestation (fuel + more) (steady 3000 (answer still_pending)) "0xabc"
      = Some (o, evs).
Proof.
  destruct (poll_settles_exactly_once (steady 3000 (answer still_pending)) "0xabc")
    as (fuel & o & evs & H & _).
  - intros i. unfold steady. cbn [attempt now_check]. lia.
  - exists fuel, o, evs. exact H.
Defined.

End ServerProps.

(** * Properties of the faucet automation *)

Module FaucetProps.

Import JS Http Faucet FaucetNotions.

(** ** Events *)

Lemma requests_app (a b : list Event) :
  requests (a ++ b) = requests a ++ requests b.
Proof.
  induction a as [|e a IH]; [reflexivity|].
  destruct e; simpl; rewrite IH; reflexivity.
Qed.

Lemma after_after s p a evs p' a' evs' :
  after (after s p a evs) p' a' evs' = after s (p + p') (a + a') (evs ++ evs').
Proof.
  unfold after. simpl. rewrite <- app_assoc, !Nat.add_assoc. reflexivity.
Qed.

Lemma after_nothing s : after s 0 0 [] = s.
Proof.
  destruct s. unfold after. simpl.
  rewrite app_nil_r, !Nat.add_0_r. reflexivity.
Qed.

(** ** [claimUSDC] on a configured chain *)

(** Case analysis on whether the [message] or [error] of a parsed object
    is truthy and can be converted. *)
Ltac split_shown :=
  repeat match goal with
         | |- context [truthy (own_prop ?k ?f)] =>
             destruct (truthy (own_prop k f)) eqn:?
         | |- context [printable (own_prop ?k ?f)] =>
             destruct (printable (own_prop k f)) eqn:?
         end.

Lemma claimUSDC_configured walletAddress chain cfg w s :
  lookup chain CHAINS = Some cfg ->
  exists outcome evs,
    claimUSDC walletAddress chain w s = (Ok outcome, after s 1 1 evs)
    /\ requests evs = [request_for cfg walletAddress]
    /\ success outcome
       = claim_succeeds (faucet w (posts s) (request_for cfg walletAddress)).
Proof.
  intros Hcfg. unfold claimUSDC. rewrite Hcfg.
  unfold try_catch, bind, field, ret, emit, fetch_post, json_of, read, text,
    log, throw, after, request_for, claim_succeeds, or_else, shows.
  simpl.
  destruct (faucet w (posts s) _) as [m | status statusText body]; simpl.
  - destruct (log_append w (appends s)); simpl;
      rewrite <- ?app_assoc, !Nat.add_1_r; simpl;
      eexists; eexists; (split; [reflexivity | split; reflexivity]).
  - destruct body as [m | json]; simpl.
    + rewrite andb_false_r.
      destruct (log_append w (appends s)); simpl;
        rewrite <- ?app_assoc, !Nat.add_1_r; simpl;
        eexists; eexists; (split; [reflexivity | split; reflexivity]).
    + destruct (res_ok status); destruct json; simpl;
        split_shown; simpl;
        destruct (log_append w (appends s)); simpl;
        rewrite <- ?app_assoc, !Nat.add_1_r; simpl;
        eexists; eexists; (split; [reflexivity | split; reflexivity]).
Qed.

(** ** The monad on the paths the scripts take *)

Lemma bind_ok {A B : Type} (m : M A) (k : A -> M B) w s a s' :
  m w s = (Ok a, s') -> bind m k w s = k a w s'.
Proof. unfold bind. intros ->. reflexivity. Qed.

Lemma emit_after e w s : emit e w s = (Ok tt, after s 0 0 [e]).
Proof.
  unfold emit, after. rewrite !Nat.add_0_r. reflexivity.
Qed.

Lemma log_after m w s :
  exists evs, log m w s = (Ok tt, after s 0 1 evs) /\ requests evs = [].
Proof.
  unfold log, after. rewrite Nat.add_0_r, Nat.add_1_r. simpl.
  destruct (log_append w (appends s)).
  - eexists. rewrite <- app_assoc. split; reflexivity.
  - eexists. split; reflexivity.
Qed.

Lemma name_of_configured chain cfg w s :
  lookup chain CHAINS = Some cfg ->
  field "name" name (lookup chain CHAINS) w s = (Ok (name cfg), s).
Proof. intros ->. reflexivity. Qed.

(** Running the next statement of a script: a console line, or a call
    whose completion is known. *)
Tactic Notation "run_with" uconstr(H) := rewrite (bind_ok _ _ _ _ _ _ H).

Ltac run_emit := run_with (emit_after _ _ _).

(** ** The loop over the wallets of a chain *)

Lemma claim_each_configured chain cfg w :
  lookup chain CHAINS = Some cfg ->
  forall wallets results s,
  exists new evs,
    claim_each chain wallets results w s
    = (Ok (results ++ new),
       after s (List.length wallets) (List.length wallets) evs)
    /\ requests evs = map (request_for cfg) wallets
    /\ map wallet new = wallets
    /\ map (fun e => success (result e)) new
       = map claim_succeeds (answers w cfg (posts s) wallets).
Proof.
  intros Hcfg.
  induction wallets as [|x rest IH]; intros results s.
  - exists [], []. simpl. unfold ret.
    rewrite app_nil_r, after_nothing. repeat split.
  - destruct (claimUSDC_configured x chain cfg w s Hcfg)
      as (outcome & evs1 & Hclaim & Hreq & Hsucc).
    destruct (IH (results ++ [{| wallet := x; result := outcome |}])
                 (after (after s 1 1 evs1) 0 0 [Sleep 2000]))
      as (new & evs2 & Hrest & Hreq2 & Hwallets & Hsuccs).
    exists ({| wallet := x; result := outcome |} :: new),
           (evs1 ++ [Sleep 2000] ++ evs2).
    split; [|split; [|split]].
    + simpl claim_each.
      run_with Hclaim.
      unfold sleep. run_emit.
      rewrite Hrest, !after_after, <- app_assoc. reflexivity.
    + rewrite !requests_app, Hreq, Hreq2. reflexivity.
    + simpl. rewrite Hwallets. reflexivity.
    + simpl. rewrite Hsucc, Hsuccs. simpl.
      rewrite Nat.add_0_r, Nat.add_1_r. reflexivity.
Qed.

Lemma successful_failed_length results :
  (successful results + failed results)%nat = List.length results.
Proof.
  unfold successful, failed.
  induction results as [|e results IH]; [reflexivity|].
  simpl. destruct (success (result e)); simpl; lia.
Qed.

(** ** [processChain] *)

(** The events of [processChain] on a chain with wallets. *)
Lemma processChain_with_wallets chain cfg x rest w s :
  lookup chain CHAINS = Some cfg ->
  exists results evs,
    Part000.processChain chain (Some (x :: rest)) w s
    = (Ok (Some results),
       after s (List.length (x :: rest)) (S (List.length (x :: rest))) evs)
    /\ FaucetAutomation.processChain chain (Some (x :: rest)) w s
       = (Ok tt,
          after s (List.length (x :: rest)) (S (List.length (x :: rest))) evs)
    /\ requests evs = map (request_for cfg) (x :: rest)
    /\ map wallet results = x :: rest
    /\ map (fun e => success (result e)) results
       = map claim_succeeds (answers w cfg (posts s) (x :: rest))
    /\ In (Console green
             (MChainSummary (name cfg) (successful results) (failed results)))
          evs.
Proof.
  intros Hcfg.
  set (ws := x :: rest).
  set (s1 := after s 0 0 [Console blue (MProcessing (List.length ws) (name cfg))]).
  destruct (claim_each_configured chain cfg w Hcfg ws [] s1)
    as (results & evs & Heach & Hreq & Hwallets & Hsucc).
  simpl app in Heach.
  set (s2 := after s1 (List.length ws) (List.length ws) evs) in Heach.
  set (summary := Console green
                    (MChainSummary (name cfg) (successful results) (failed results))).
  set (s3 := after s2 0 0 [summary]).
  destruct (log_after (MLogSummary (name cfg) (successful results) (failed results))
              w s3) as (levs & Hlog & Hlreq).
  exists results,
    ([Console blue (MProcessing (List.length ws) (name cfg))]
     ++ evs ++ [summary] ++ levs).
  assert (Hstate :
            after s3 0 1 levs
            = after s (List.length ws) (S (List.length ws))
                ([Console blue (MProcessing (List.length ws) (name cfg))]
                 ++ evs ++ [summary] ++ levs)).
  { unfold s3, s2, s1. rewrite !after_after. f_equal; simpl; lia. }
  split; [|split; [|split; [|split; [|split]]]].
  - unfold Part000.processChain.
    change (no_wallets (Some ws)) with false. cbv iota.
    run_with (name_of_configured _ _ _ _ Hcfg).
    run_emit.
    fold ws. fold s1.
    run_with Heach.
    run_with (name_of_configured _ _ _ _ Hcfg).
    run_emit.
    fold summary. fold s3.
    run_with (name_of_configured _ _ _ _ Hcfg).
    run_with Hlog.
    unfold ret. rewrite Hstate. reflexivity.
  - unfold FaucetAutomation.processChain.
    change (no_wallets (Some ws)) with false. cbv iota.
    run_with (name_of_configured _ _ _ _ Hcfg).
    run_emit.
    fold ws. fold s1.
    run_with Heach.
    run_with (name_of_configured _ _ _ _ Hcfg).
    run_emit.
    fold summary. fold s3.
    run_with (name_of_configured _ _ _ _ Hcfg).
    rewrite Hlog, Hstate. reflexivity.
  - rewrite !requests_app, Hreq, Hlreq. simpl. rewrite app_nil_r. reflexivity.
  - exact Hwallets.
  - rewrite Hsucc. unfold s1, after. simpl posts.
    rewrite Nat.add_0_r. reflexivity.
  - apply in_or_app. right. apply in_or_app. right. left. reflexivity.
Qed.

(** The events of [processChain] on a chain without wallets. *)
Lemma processChain_without_wallets chain cfg wallets w s :
  lookup chain CHAINS = Some cfg ->
  no_wallets wallets = true ->
  Part000.processChain chain wallets w s
  = (Ok None, after s 0 0 [Console yellow (MNoWallets (name cfg))])
  /\ FaucetAutomation.processChain chain wallets w s
     = (Ok tt, after s 0 0 [Console yellow (MNoWallets (name cfg))]).
Proof.
  intros Hcfg Hno.
  unfold Part000.processChain, FaucetAutomation.processChain.
  rewrite Hno.
  rewrite !(bind_ok _ _ _ _ _ _ (name_of_configured _ _ _ _ Hcfg)).
  run_emit.
  rewrite emit_after. split; reflexivity.
Qed.

(** [processChain] on any wallet entry of a configured chain: it
    fulfils, having claimed for the listed wallets in order. *)
Lemma processChain_configured chain cfg wallets w s :
  lookup chain CHAINS = Some cfg ->
  exists results a evs,
    Part000.processChain chain wallets w s
    = (Ok results, after s (List.length (wallets_of wallets)) a evs)
    /\ FaucetAutomation.processChain chain wallets w s
       = (Ok tt, after s (List.length (wallets_of wallets)) a evs)
    /\ requests evs = map (request_for cfg) (wallets_of wallets).
Proof.
  intros Hcfg.
  destruct wallets as [[|x rest]|].
  - destruct (processChain_without_wallets chain cfg (Some []) w s Hcfg eq_refl)
      as [H1 H2].
    exists None, 0%nat, [Console yellow (MNoWallets (name cfg))].
    split; [exact H1 | split; [exact H2 | reflexivity]].
  - destruct (processChain_with_wallets chain cfg x rest w s Hcfg)
      as (results & evs & H1 & H2 & Hreq & _).
    exists (Some results), (S (List.length (x :: rest))), evs.
    split; [exact H1 | split; [exact H2 | exact Hreq]].
  - destruct (processChain_without_wallets chain cfg None w s Hcfg eq_refl)
      as [H1 H2].
    exists None, 0%nat, [Console yellow (MNoWallets (name cfg))].
    split; [exact H1 | split; [exact H2 | reflexivity]].
Qed.

(** ** The loop over the chains *)

Lemma process_chains_configured wallets w :
  forall chains,
    (forall kc, In kc chains -> lookup (fst kc) CHAINS = Some (snd kc)) ->
    forall allResults s,
    exists all p a evs,
      Part000.process_chains (keys chains) wallets allResults w s
      = (Ok all, after s p a evs)
      /\ FaucetAutomation.process_chains (keys chains) wallets w s
         = (Ok tt, after s p a evs)
      /\ requests evs = planned_for chains wallets.
Proof.
  induction chains as [|[chain cfg] chains IH]; intros Hall allResults s.
  - exists allResults, 0%nat, 0%nat, []. simpl. unfold ret.
    rewrite after_nothing. repeat split.
  - destruct (processChain_configured chain cfg (lookup chain wallets) w s)
      as (results & a1 & evs1 & H1 & H2 & Hreq1).
    { apply (Hall (chain, cfg)). left. reflexivity. }
    destruct (IH (fun kc H => Hall kc (or_intror H))
                 (assign chain results allResults)
                 (after s (List.length (wallets_of (lookup chain wallets))) a1 evs1))
      as (all & p & a2 & evs2 & H3 & H4 & Hreq2).
    eexists all, _, _, (evs1 ++ evs2).
    split; [|split].
    + simpl. rewrite (bind_ok _ _ _ _ _ _ H1), H3, after_after. reflexivity.
    + simpl. rewrite (bind_ok _ _ _ _ _ _ H2), H4, after_after. reflexivity.
    + rewrite requests_app, Hreq1, Hreq2. reflexivity.
Qed.

Lemma CHAINS_configured kc :
  In kc CHAINS -> lookup (fst kc) CHAINS = Some (snd kc).
Proof.
  intros [<- | [<- | [<- | []]]]; reflexivity.
Qed.

(** [total_stats] touches nothing; it fulfils or throws. *)
Lemma total_stats_pure w s : forall all totalSuccess totalFailed,
  (exists totals,
     Part000.total_stats all totalSuccess totalFailed w s = (Ok totals, s))
  \/ (exists e,
        Part000.total_stats all totalSuccess totalFailed w s = (Thrown e, s)).
Proof.
  induction all as [|[results|] all IH]; intros a b; simpl.
  - left. eexists. reflexivity.
  - apply IH.
  - right. eexists. reflexivity.
Qed.

(** ** Loading the wallets *)

Lemma loadWallets_loaded w wallets s :
  wallet_file w = inr wallets ->
  Part000.loadWallets w s = (Ok wallets, s)
  /\ FaucetAutomation.loadWallets w s = (Ok wallets, s).
Proof.
  intros H.
  unfold Part000.loadWallets, FaucetAutomation.loadWallets, try_catch,
    read_wallet_file.
  rewrite H. split; reflexivity.
Qed.

Lemma Part000_loadWallets_throws w e s :
  fst (run Part000.loadWallets w) = Thrown e ->
  Part000.loadWallets w s
  = (Thrown e, after s 0 0 [Console red (MLoadFailed (message e))]).
Proof.
  unfold run, Part000.loadWallets, try_catch, read_wallet_file, bind, throw.
  destruct (wallet_file w) as [e0 | wallets]; simpl; [|discriminate].
  intros H. injection H as ->.
  unfold after. rewrite !Nat.add_0_r. reflexivity.
Qed.

Lemma FaucetAutomation_loadWallets_throws w e s :
  fst (run FaucetAutomation.loadWallets w) = Thrown e ->
  exists evs,
    FaucetAutomation.loadWallets w s = (Thrown e, after s 0 0 evs)
    /\ incl evs [WriteSample].
Proof.
  unfold run, FaucetAutomation.loadWallets, try_catch, read_wallet_file, bind,
    throw, write_sample_file, emit, ret.
  destruct (wallet_file w) as [e0 | wallets]; simpl; [|discriminate].
  destruct (FaucetAutomation.is_ENOENT e0); simpl.
  - destruct (sample_write w) as [e1|]; simpl; [|discriminate].
    intros H. injection H as ->.
    exists [WriteSample]. unfold after. rewrite !Nat.add_0_r.
    split; [reflexivity | apply incl_refl].
  - intros H. injection H as ->.
    exists []. rewrite after_nothing.
    split; [reflexivity | apply incl_nil_l].
Qed.

(** ** A whole run *)

Lemma bind_thrown {A B : Type} (m : M A) (k : A -> M B) w s e s' :
  m w s = (Thrown e, s') -> bind m k w s = (Thrown e, s').
Proof. unfold bind. intros ->. reflexivity. Qed.

Lemma exit_after {A : Type} status w s :
  @exit A status w s = (Exited status, after s 0 0 [ExitProcess status]).
Proof.
  unfold exit, after. rewrite !Nat.add_0_r. reflexivity.
Qed.

(** Once the wallets are loaded, the one-shot script claims for every
    planned wallet, whatever the faucet answers. *)
Lemma Part000_runFaucet_loaded w wallets :
  wallet_file w = inr wallets ->
  exists r p a evs,
    run Part000.runFaucet w = (r, after initial p a evs)
    /\ requests evs = planned wallets.
Proof.
  intros Hfile. unfold run, Part000.runFaucet.
  run_emit.
  set (s0 := after initial 0 0 [Console green MBanner]).
  destruct (process_chains_configured wallets w CHAINS CHAINS_configured [] s0)
    as (all & p & a & evs & Hchains & _ & Hreq).
  set (s1 := after s0 p a evs) in Hchains.
  set (s2 := after s1 0 0 [Console green MCycleCompleted]).
  unfold try_catch.
  run_with (proj1 (loadWallets_loaded w wallets s0 Hfile)).
  run_with Hchains.
  run_emit.
  fold s2.
  destruct (total_stats_pure w s2 (values all) 0%nat 0%nat)
    as [[totals Ht] | [e Ht]].
  - run_with Ht.
    run_emit.
    destruct (log_after (MLogFinal (fst totals) (snd totals)) w
                (after s2 0 0
                   [Console green (MFinalSummary (fst totals) (snd totals))]))
      as (levs & -> & Hl).
    unfold s2, s1, s0. rewrite !after_after.
    eexists _, _, _, _. split; [reflexivity|].
    rewrite !requests_app, Hreq, Hl. simpl. rewrite app_nil_r. reflexivity.
  - rewrite (bind_thrown _ _ _ _ _ _ Ht).
    run_emit.
    destruct (log_after (MLogFatal (message e)) w
                (after s2 0 0 [Console red (MFatal (message e))]))
      as (levs & Hlog & Hl).
    rewrite (bind_ok _ _ _ _ _ _ Hlog), exit_after.
    unfold s2, s1, s0. rewrite !after_after.
    eexists _, _, _, _. split; [reflexivity|].
    rewrite !requests_app, Hreq, Hl. simpl. rewrite app_nil_r. reflexivity.
Qed.

(** So does the rescheduling script, which then fulfils. *)
Lemma FaucetAutomation_runFaucet_loaded w wallets :
  wallet_file w = inr wallets ->
  exists p a evs,
    run FaucetAutomation.runFaucet w = (Ok tt, after initial p a evs)
    /\ requests evs = planned wallets.
Proof.
  intros Hfile. unfold run, FaucetAutomation.runFaucet.
  repeat run_emit. rewrite !after_after.
  set (s0 := after initial _ _ _).
  destruct (process_chains_configured wallets w CHAINS CHAINS_configured [] s0)
    as (all & p & a & evs & _ & Hchains & Hreq).
  set (s1 := after s0 p a evs) in Hchains.
  assert (Htry :
            try_catch
              (wallets <- FaucetAutomation.loadWallets ;;
               FaucetAutomation.process_chains (keys CHAINS) wallets)
              (fun error =>
                 emit (Console red (MFatal (message error))) ;;
                 log (MLogFatal (message error))) w s0
            = (Ok tt, s1)).
  { unfold try_catch.
    run_with (proj2 (loadWallets_loaded w wallets s0 Hfile)).
    rewrite Hchains. reflexivity. }
  run_with Htry.
  run_emit.
  run_emit.
  destruct (log_after MLogCycle w
              (after (after s1 0 0 [Console green MCycleCompleted]) 0 0
                 [Console blue MNextRun]))
    as (levs & -> & Hl).
  unfold s1, s0. rewrite !after_after.
  eexists _, _, _. split; [reflexivity|].
  rewrite !requests_app, Hreq, Hl. simpl. rewrite app_nil_r. reflexivity.
Qed.

Lemma count_by_map {A B : Type} (f : A -> bool) (g : B -> bool) :
  forall (l : list A) (l' : list B),
    map f l = map g l' ->
    List.length (filter f l) = List.length (filter g l').
Proof.
  induction l as [|x l IH]; intros [|y l'] H; try discriminate; [reflexivity|].
  simpl in H. injection H as Hx Hl. simpl. rewrite Hx.
  destruct (g y); simpl; rewrite (IH _ Hl); reflexivity.
Qed.

Lemma log_events_spec m w s :
  log m w s = (Ok tt, after s 0 1 (log_events m w s))
  /\ requests (log_events m w s) = []
  /\ In (Append m) (log_events m w s)
  /\ forall status, ~ In (ExitProcess status) (log_events m w s).
Proof.
  unfold log, log_events, after. rewrite Nat.add_0_r, Nat.add_1_r. simpl.
  destruct (log_append w (appends s)); simpl.
  - rewrite <- app_assoc. repeat split; auto.
    intros status [H | [H | [H | []]]]; discriminate.
  - repeat split; auto.
    intros status [H | [H | []]]; discriminate.
Qed.

(** ** The claims about the faucet automation *)

(** C5, as stated, fails: in the rescheduling script a wallet file that
    cannot be parsed makes [loadWallets] throw, and [runFaucet] catches
    the error, logs it and fulfils; nothing reaches its caller, which
    goes on to schedule the next runs, and the process does not exit. *)
Lemma load_failure_is_absorbed_by_the_rescheduling_script :
  fst (run FaucetAutomation.loadWallets corrupt_file)
  = Thrown {| code := None; message := "Unexpected end of JSON input" |}
  /\ run FaucetAutomation.runFaucet corrupt_file
     = (Ok tt,
        {| posts := 0;
           appends := 2;
           trace :=
             [ Console green MRule;
               Console green MBanner;
               Console green MRule;
               Console red (MFatal "Unexpected end of JSON input");
               Console plain (MLogFatal "Unexpected end of JSON input");
               Append (MLogFatal "Unexpected end of JSON input");
               Console green MCycleCompleted;
               Console blue MNextRun;
               Console plain MLogCycle;
               Append MLogCycle ] |})
  /\ fst (run FaucetAutomation.main corrupt_file) = Ok tt
  /\ In (SetInterval 3600000)
        (trace (snd (run FaucetAutomation.main corrupt_file)))
  /\ forall status,
       ~ In (ExitProcess status)
           (trace (snd (run FaucetAutomation.main corrupt_file))).
Proof.
  repeat split.
  - vm_compute. tauto.
  - intros status H. vm_compute in H.
    repeat (destruct H as [H | H]; [discriminate|]). exact H.
Qed.

(** C5 (amended).  When [loadWallets] throws, the run attempts no claim
    and the error is handled once, by the handler of [runFaucet], which
    prints it as fatal and logs it.  The one-shot script then exits the
    process with status 1; the rescheduling script completes the cycle
    and fulfils, without exiting. *)
Theorem load_failure_ends_the_run_without_claims w e :
  (fst (run Part000.loadWallets w) = Thrown e ->
   exists a evs,
     run Part000.runFaucet w = (Exited 1, after initial 0 a evs)
     /\ requests evs = []
     /\ In (Console red (MFatal (message e))) evs
     /\ In (Append (MLogFatal (message e))) evs)
  /\ (fst (run FaucetAutomation.loadWallets w) = Thrown e ->
     exists a evs,
       run FaucetAutomation.runFaucet w = (Ok tt, after initial 0 a evs)
       /\ requests evs = []
       /\ In (Console red (MFatal (message e))) evs
       /\ In (Append (MLogFatal (message e))) evs
       /\ forall status, ~ In (ExitProcess status) evs).
Proof.
  split.
  - intros Hone. unfold run, Part000.runFaucet.
    run_emit.
    unfold try_catch at 1.
    rewrite (bind_thrown _ _ _ _ _ _ (Part000_loadWallets_throws w e _ Hone)).
    run_emit.
    destruct (log_events_spec (MLogFatal (message e)) w
                (after (after (after initial 0 0 [Console green MBanner])
                          0 0 [Console red (MLoadFailed (message e))])
                   0 0 [Console red (MFatal (message e))]))
      as (Hlog & Hreq & Hin & _).
    set (levs := log_events (MLogFatal (message e)) w _) in *.
    run_with Hlog.
    rewrite exit_after, !after_after.
    eexists _, _. split; [reflexivity|].
    split; [|split].
    + rewrite !requests_app, Hreq. reflexivity.
    + rewrite !in_app_iff. simpl. auto.
    + rewrite !in_app_iff. auto.
  - intros Hre. unfold run, FaucetAutomation.runFaucet.
    repeat run_emit. rewrite !after_after.
    set (s0 := after initial _ _ _).
    destruct (FaucetAutomation_loadWallets_throws w e s0 Hre)
      as (wevs & Hload & Hincl).
    destruct (log_events_spec (MLogFatal (message e)) w
                (after (after s0 0 0 wevs)
                   0 0 [Console red (MFatal (message e))]))
      as (Hlog & Hreq & Hin & Hnoexit).
    set (levs := log_events (MLogFatal (message e)) w _) in *.
    assert (Htry :
              try_catch
                (wallets <- FaucetAutomation.loadWallets ;;
                 FaucetAutomation.process_chains (keys CHAINS) wallets)
                (fun error =>
                   emit (Console red (MFatal (message error))) ;;
                   log (MLogFatal (message error))) w s0
              = (Ok tt,
                 after (after (after s0 0 0 wevs)
                          0 0 [Console red (MFatal (message e))])
                   0 1 levs)).
    { unfold try_catch.
      rewrite (bind_thrown _ _ _ _ _ _ Hload).
      run_emit.
      exact Hlog. }
    run_with Htry.
    run_emit.
    run_emit.
    match goal with
    | |- context [log MLogCycle w ?s] =>
        destruct (log_events_spec MLogCycle w s)
          as (Hlog2 & Hreq2 & _ & Hnoexit2);
        rewrite Hlog2;
        set (cevs := log_events MLogCycle w s) in *
    end.
    unfold s0. rewrite !after_after.
    exists 2%nat,
      ([Console green MRule] ++ [Console green MBanner] ++ [Console green MRule]
       ++ wevs ++ [Console red (MFatal (message e))]
       ++ levs ++ [Console green MCycleCompleted] ++ [Console blue MNextRun]
       ++ cevs).
    split; [reflexivity|].
    assert (Hw : requests wevs = [] /\ forall status, ~ In (ExitProcess status) wevs).
    { split.
      - destruct wevs as [|ev wevs]; [reflexivity|].
        assert (ev = WriteSample) as ->.
        { destruct (Hincl ev (or_introl eq_refl)) as [<- | []]. reflexivity. }
        clear - Hincl. induction wevs as [|ev' wevs IH]; [reflexivity|].
        assert (ev' = WriteSample) as ->.
        { destruct (Hincl ev' (or_intror (or_introl eq_refl))) as [<- | []].
          reflexivity. }
        apply IH. intros x [<- | Hx]; [left; reflexivity|].
        apply Hincl. right. right. exact Hx.
      - intros status Hin'. destruct (Hincl _ Hin') as [H | []]. discriminate. }
    destruct Hw as [Hwreq Hwexit].
    split; [|split; [|split]].
    + rewrite !requests_app, Hreq, Hreq2, Hwreq. reflexivity.
    + rewrite !in_app_iff. simpl. auto 10.
    + rewrite !in_app_iff. auto 10.
    + intros status. rewrite !in_app_iff. simpl.
      intros [[H | []] | [[H | []] | [[H | []] | [H | [[H | []] | [H | [[H | []] | [[H | []] | H]]]]]]]];
        try discriminate.
      * exact (Hwexit _ H).
      * exact (Hnoexit _ H).
      * exact (Hnoexit2 _ H).
Qed.

Lemma load_failure_ends_the_run_without_claims_witness :
  exists a evs,
    run Part000.runFaucet corrupt_file = (Exited 1, after initial 0 a evs)
    /\ requests evs = [].
Proof.
  destruct (proj1 (load_failure_ends_the_run_without_claims corrupt_file
                     {| code := None;
                        message := "Unexpected end of JSON input" |})
              eq_refl)
    as (a & evs & Hrun & Hreq & _).
  exists a, evs. split; assumption.
Defined.

(** On an empty wallet list [processChain] of the one-shot script prints
    the notice that no wallets are configured and returns [undefined]; it
    neither prints nor logs a summary. *)
Example empty_chain_yields_no_summary :
  run (Part000.processChain "base_sepolia" (Some [])) second_fails
  = (Ok None,
     {| posts := 0; appends := 0;
        trace := [Console yellow (MNoWallets "Base Sepolia Testnet")] |})
  /\ ~ In (Console green (MChainSummary "Base Sepolia Testnet" 0 0))
         (trace (snd (run (Part000.processChain "base_sepolia" (Some []))
                        second_fails)))
  /\ ~ In (Append (MLogSummary "Base Sepolia Testnet" 0 0))
         (trace (snd (run (Part000.processChain "base_sepolia" (Some []))
                        second_fails))).
Proof.
  split; [reflexivity|].
  split; intros [H | []]; discriminate.
Qed.

(** What [processChain] itself does on an empty or absent wallet list of
    a configured chain: it sends no request and writes no log line,
    prints the one notice that no wallets are configured, and completes;
    in the one-shot script its result is the [undefined] of the bare
    [return]. *)
Lemma empty_wallet_list_skips_the_chain chain cfg wallets w s :
  lookup chain CHAINS = Some cfg ->
  no_wallets wallets = true ->
  exists s',
    Part000.processChain chain wallets w s = (Ok None, s')
    /\ FaucetAutomation.processChain chain wallets w s = (Ok tt, s')
    /\ posts s' = posts s
    /\ appends s' = appends s
    /\ trace s' = trace s ++ [Console yellow (MNoWallets (name cfg))].
Proof.
  intros Hcfg Hno.
  destruct (processChain_without_wallets chain cfg wallets w s Hcfg Hno)
    as [H1 H2].
  exists (after s 0 0 [Console yellow (MNoWallets (name cfg))]).
  split; [exact H1 | split; [exact H2 |]].
  unfold after. simpl. rewrite !Nat.add_0_r. repeat split.
Qed.

(** In the one-shot script the skipped chain leaves [undefined] among the
    collected results, on which the final count throws: a run that has
    claimed for every listed wallet still ends as a fatal error. *)
Example skipped_chain_breaks_the_final_count :
  fst (run Part000.runFaucet second_fails) = Exited 1
  /\ In (Console red (MFatal (type_error_undefined "filter")))
        (trace (snd (run Part000.runFaucet second_fails)))
  /\ List.length (requests (trace (snd (run Part000.runFaucet second_fails))))
     = 3%nat.
Proof.
  split; [reflexivity|]. split; [|reflexivity].
  vm_compute. tauto.
Qed.

(** C7.  On a non-empty wallet list of a configured chain, [processChain]
    sends exactly one request per wallet, in list order; its results list
    the wallets in that order, each with the outcome of its own request;
    and the summary it prints counts the successful and the failed ones,
    which together are all of them. *)
Theorem processChain_claims_each_wallet_once chain cfg wallets w s :
  lookup chain CHAINS = Some cfg ->
  wallets <> [] ->
  exists results evs,
    Part000.processChain chain (Some wallets) w s
    = (Ok (Some results),
       after s (List.length wallets) (S (List.length wallets)) evs)
    /\ requests evs = map (request_for cfg) wallets
    /\ map wallet results = wallets
    /\ map (fun e => success (result e)) results
       = map claim_succeeds (answers w cfg (posts s) wallets)
    /\ In (Console green
             (MChainSummary (name cfg) (successful results) (failed results)))
          evs
    /\ successful results
       = List.length (filter claim_succeeds (answers w cfg (posts s) wallets))
    /\ failed results
       = List.length
           (filter (fun f => negb (claim_succeeds f))
              (answers w cfg (posts s) wallets))
    /\ (successful results + failed results)%nat = List.length wallets.
Proof.
  intros Hcfg Hne.
  destruct wallets as [|x rest]; [congruence|].
  destruct (processChain_with_wallets chain cfg x rest w s Hcfg)
    as (results & evs & Hrun & _ & Hreq & Hwallets & Hsucc & Hsummary).
  exists results, evs.
  repeat (split; [assumption|]).
  split; [|split].
  - unfold successful.
    apply (count_by_map (fun e => success (result e)) claim_succeeds), Hsucc.
  - unfold failed.
    apply (count_by_map (fun e => negb (success (result e)))
             (fun f => negb (claim_succeeds f))).
    rewrite <- (map_map (fun e => success (result e)) negb), Hsucc, map_map.
    reflexivity.
  - rewrite successful_failed_length, <- Hwallets, length_map. reflexivity.
Qed.

Lemma processChain_claims_each_wallet_once_witness :
  exists results evs,
    fst (run (Part000.processChain "base_sepolia"
                (Some ["0xa1"; "0xb2"; "0xc3"])) second_fails)
    = Ok (Some results)
    /\ map req_address (requests evs) = ["0xa1"; "0xb2"; "0xc3"]
    /\ successful results = 2%nat
    /\ failed results = 1%nat.
Proof.
  destruct (processChain_claims_each_wallet_once "base_sepolia"
              {| name := "Base Sepolia Testnet"; chainId := "84532";
                 token := "USDC" |}
              ["0xa1"; "0xb2"; "0xc3"] second_fails initial eq_refl)
    as (results & evs & Hrun & Hreq & _ & _ & _ & Hs & Hf & _).
  - discriminate.
  - exists results, evs. unfold run. rewrite Hrun, Hreq, Hs, Hf.
    repeat split.
Defined.

(** C8.  On a configured chain, one call of [claimUSDC] sends exactly
    one POST and fulfils with an outcome; the outcome is a failure when
    the request is rejected by the network or answered with a non-success
    status, and nothing is sent again.  Whatever the faucet answers, a run
    of either script goes on to claim for every wallet of every chain of
    the loaded wallet file, each once, in order. *)
Theorem claim_is_a_single_attempt walletAddress chain cfg wallets w s :
  lookup chain CHAINS = Some cfg ->
  wallet_file w = inr wallets ->
  (exists outcome evs,
     claimUSDC walletAddress chain w s = (Ok outcome, after s 1 1 evs)
     /\ requests evs = [request_for cfg walletAddress]
     /\ (forall m,
           faucet w (posts s) (request_for cfg walletAddress) = FetchRejects m ->
           success outcome = false)
     /\ (forall status statusText body,
           faucet w (posts s) (request_for cfg walletAddress)
           = FetchResponse status statusText body ->
           res_ok status = false ->
           success outcome = false))
  /\ (exists r p a evs,
       run Part000.runFaucet w = (r, after initial p a evs)
       /\ requests evs = planned wallets)
  /\ (exists p a evs,
       run FaucetAutomation.runFaucet w = (Ok tt, after initial p a evs)
       /\ requests evs = planned wallets).
Proof.
  intros Hcfg Hfile. split; [|split].
  - destruct (claimUSDC_configured walletAddress chain cfg w s Hcfg)
      as (outcome & evs & Hrun & Hreq & Hsucc).
    exists outcome, evs. repeat (split; [assumption|]). split.
    + intros m Hm. rewrite Hsucc, Hm. reflexivity.
    + intros status statusText body Hanswer Hok.
      rewrite Hsucc, Hanswer. simpl. rewrite Hok. reflexivity.
  - exact (Part000_runFaucet_loaded w wallets Hfile).
  - exact (FaucetAutomation_runFaucet_loaded w wallets Hfile).
Qed.

Lemma claim_is_a_single_attempt_witness :
  exists r p a evs,
    run Part000.runFaucet second_fails = (r, after initial p a evs)
    /\ map req_address (requests evs) = ["0xa1"; "0xb2"; "0xc3"].
Proof.
  destruct (claim_is_a_single_attempt "0xa1" "base_sepolia"
              {| name := "Base Sepolia Testnet"; chainId := "84532";
                 token := "USDC" |}
              [("base_sepolia", ["0xa1"; "0xb2"; "0xc3"])]
              second_fails initial eq_refl eq_refl)
    as (_ & (r & p & a & evs & Hrun & Hreq) & _).
  exists r, p, a, evs. split; [exact Hrun|].
  rewrite Hreq. reflexivity.
Defined.

(** C10 (the code departs from the claim).  The claim: [claimUSDC] never
    throws, also on a chain key that is not configured.  The code: when
    [CHAINS[chain]] is [undefined] (the key is neither configured nor
    inherited), the [TypeError] of reading [chainConfig.name] is caught,
    and the handler reads [chainConfig.name] again for its log line,
    outside any [try]; the call rejects with that second [TypeError],
    having sent nothing and returned no outcome. *)
Theorem claimUSDC_throws_on_unknown_chain walletAddress chain w s :
  lookup chain CHAINS = None ->
  inherited_key chain = false ->
  claimUSDC walletAddress chain w s
  = (Thrown (TypeError "Cannot read properties of undefined (reading 'name')"),
     after s 0 0
       [Console red
          (MNetworkError "Cannot read properties of undefined (reading 'name')")]).
Proof.
  intros Hcfg _. unfold claimUSDC. rewrite Hcfg.
  unfold try_catch.
  rewrite (bind_thrown _ _ _ _ (TypeError (type_error_undefined "name")) s);
    [|reflexivity].
  run_emit.
  apply bind_thrown. reflexivity.
Qed.

Lemma claimUSDC_throws_on_unknown_chain_witness :
  fst (run (claimUSDC "0xabc" "polygon_amoy") second_fails)
  = Thrown (TypeError "Cannot read properties of undefined (reading 'name')")
  /\ requests (trace (snd (run (claimUSDC "0xabc" "polygon_amoy") second_fails)))
     = [].
Proof.
  unfold run.
  rewrite (claimUSDC_throws_on_unknown_chain
             "0xabc" "polygon_amoy" second_fails initial eq_refl eq_refl).
  split; reflexivity.
Defined.

End FaucetProps.

(** * Further properties of the attestation poller and its proxy *)

Module ServerExtras.

Import JS Http Server PollerNotions PollerViews ServerProps.

(** ** What one pass sends *)

Lemma try_catch_wire hash elapsed f :
  filter is_wire (fst (try_catch hash elapsed f)) = [EvGet (url hash)].
Proof.
  unfold try_catch, try_block. fold (url hash).
  destruct f as [m | status statusText body]; [reflexivity|].
  destruct (res_ok status); simpl.
  - destruct body as [m | json]; [reflexivity|].
    destruct (prop json "status") as [m | st]; [reflexivity|].
    destruct (prop json "attestation") as [m | att]; [reflexivity|].
    unfold inspect.
    destruct (truthy st && negb (printable st)); [reflexivity|].
    destruct (truthy att && _ && _);
      [|destruct (strict_eq_str st "pending_confirmations");
        [|destruct (strict_eq_str st "complete");
          [destruct (truthy att)|]]];
      destruct (truthy st); reflexivity.
  - destruct (status =? 404); reflexivity.
Qed.

Lemma iteration_wire w hash i :
  filter is_wire (fst (iteration w hash i))
  = match snd (iteration w hash i) with
    | Continue => [EvGet (url hash); EvSleep 3000]
    | _ => [EvGet (url hash)]
    end.
Proof.
  unfold iteration.
  pose proof (try_catch_wire hash
                ((now_top (attempt w i) - start w) / 1000)
                (fetched (attempt w i))) as H.
  destruct (try_catch hash _ (fetched (attempt w i))) as [evs c].
  simpl in H.
  destruct c; simpl; try exact H;
    destruct (now_check (attempt w i) - start w >? timeout); simpl;
    rewrite filter_app, H; reflexivity.
Qed.

(** ** What a settled poll has done *)

(** The pass that settles the loop, the passes before it, and what went
    over the wire. *)
Lemma poll_loop_settled w hash fuel : forall i o evs,
  poll_loop fuel w hash i = Some (o, evs) ->
  exists k,
    (k < fuel)%nat
    /\ filter is_wire evs = rounds hash k
    /\ (forall j, (i <= j < i + k)%nat ->
          ready_payload (fetched (attempt w j)) = None
          /\ now_check (attempt w j) - start w <= timeout)
    /\ match o with
       | Resolved json =>
           ready_payload (fetched (attempt w (i + k))) = Some json
       | Rejected m =>
           ready_payload (fetched (attempt w (i + k))) = None
           /\ now_check (attempt w (i + k)) - start w > timeout
           /\ m = timeout_message hash
       end.
Proof.
  induction fuel as [|fuel IH]; intros i o evs H; [discriminate|].
  simpl in H.
  pose proof (iteration_wire w hash i) as Hwire.
  pose proof (iteration_step w hash i) as Hstep.
  destruct (iteration w hash i) as [pevs st]. simpl in Hwire, Hstep.
  destruct st as [json | m |].
  - injection H as <- <-. exists 0%nat. rewrite Nat.add_0_r.
    split; [lia|]. split; [exact Hwire|]. split; [intros j Hj; lia|].
    destruct (ready_payload (fetched (attempt w i))) as [json'|];
      [congruence|].
    destruct (now_check (attempt w i) - start w >? timeout); discriminate.
  - injection H as <- <-. exists 0%nat. rewrite Nat.add_0_r.
    split; [lia|]. split; [exact Hwire|]. split; [intros j Hj; lia|].
    destruct (ready_payload (fetched (attempt w i))) as [json'|];
      [discriminate|].
    destruct (now_check (attempt w i) - start w >? timeout) eqn:E;
      [|discriminate].
    repeat split; [lia | congruence].
  - destruct (poll_loop fuel w hash (S i)) as [[o' rest]|] eqn:Eloop;
      [|discriminate].
    injection H as <- <-.
    destruct (IH _ _ _ Eloop) as (k & Hk & Hrounds & Hbefore & Hlast).
    exists (S k).
    split; [lia|].
    split; [rewrite filter_app, Hwire, Hrounds; reflexivity|].
    assert (Hi : ready_payload (fetched (attempt w i)) = None
                 /\ now_check (attempt w i) - start w <= timeout).
    { destruct (ready_payload (fetched (attempt w i))); [discriminate|].
      destruct (now_check (attempt w i) - start w >? timeout) eqn:E;
        [discriminate|].
      split; [reflexivity | lia]. }
    split.
    + intros j Hj. destruct (Nat.eq_dec j i) as [-> | Hne];
        [exact Hi | apply Hbefore; lia].
    + replace (i + S k)%nat with (S i + k)%nat by lia. exact Hlast.
Qed.

(** The loop goes through the passes that neither return nor time out. *)
Lemma poll_loop_passes w hash k : forall i,
  (forall j, (i <= j < i + k)%nat ->
     ready_payload (fetched (attempt w j)) = None
     /\ now_check (attempt w j) - start w <= timeout) ->
  (forall fuel, (fuel <= k)%nat -> poll_loop fuel w hash i = None)
  /\ exists evs,
       forall fuel,
         poll_loop (k + fuel) w hash i
         = match poll_loop fuel w hash (i + k) with
           | Some (o, rest) => Some (o, evs ++ rest)
           | None => None
           end.
Proof.
  induction k as [|k IH]; intros i Hpass.
  - split.
    + intros fuel Hfuel. assert (fuel = 0%nat) as -> by lia. reflexivity.
    + exists []. intros fuel. rewrite Nat.add_0_r. simpl.
      destruct (poll_loop fuel w hash i) as [[o rest]|]; reflexivity.
  - destruct (Hpass i) as [Hready Hdeadline]; [lia|].
    destruct (iteration_shape w hash i) as [pevs Hit].
    rewrite Hready in Hit.
    assert (E : (now_check (attempt w i) - start w >? timeout) = false).
    { destruct (now_check (attempt w i) - start w >? timeout) eqn:E;
        [lia | reflexivity]. }
    rewrite E in Hit.
    destruct (IH (S i)) as [Hnone [evs Hsome]].
    { intros j Hj. apply Hpass. lia. }
    split.
    + intros [|fuel] Hfuel; [reflexivity|].
      simpl. rewrite Hit, Hnone; [reflexivity | lia].
    + exists ((pevs ++ [EvSleep 3000]) ++ evs). intros fuel.
      simpl. rewrite Hit, Hsome.
      replace (i + S k)%nat with (S i + k)%nat by lia.
      destruct (poll_loop fuel w hash (S i + k)) as [[o rest]|];
        [rewrite app_assoc|]; reflexivity.
Qed.

(** A ready payload is the parsed body of a 2xx answer whose
    [attestation] is truthy. *)
Lemma ready_payload_inv f json :
  ready_payload f = Some json ->
  exists status statusText att,
    f = FetchResponse status statusText (BodyJSON json)
    /\ res_ok status = true
    /\ prop json "attestation" = inr att
    /\ truthy att = true.
Proof.
  intros H.
  destruct f as [m | status statusText [m | body]]; try discriminate.
  - unfold ready_payload, try_catch, try_block in H.
    destruct (negb (res_ok status)); discriminate.
  - destruct (res_ok status) eqn:Hok.
    + destruct (prop body "status") as [m | st] eqn:Hst.
      { unfold ready_payload, try_catch, try_block in H.
        rewrite Hok, Hst in H. discriminate. }
      destruct (prop body "attestation") as [m | att] eqn:Hatt.
      { unfold ready_payload, try_catch, try_block in H.
        rewrite Hok, Hst, Hatt in H. discriminate. }
      rewrite (ready_payload_spec _ _ _ _ _ Hok Hst Hatt) in H.
      destruct (shows st); [|discriminate].
      destruct (truthy att) eqn:Ht; [|discriminate].
      destruct (_ || _) in H; [|discriminate].
      injection H as ->.
      exists status, statusText, att. repeat split; assumption.
    + rewrite transient_not_ready in H; [discriminate|].
      simpl. rewrite Hok. reflexivity.
Qed.

Lemma pollAttestation_settled w hash fuel o evs :
  pollAttestation fuel w hash = Some (o, evs) ->
  exists rest,
    poll_loop fuel w hash 0 = Some (o, rest) /\ evs = EvStart hash :: rest.
Proof.
  unfold pollAttestation.
  destruct (poll_loop fuel w hash 0) as [[o' rest]|]; [|discriminate].
  intros H. injection H as <- <-. eauto.
Qed.

(** ** Properties *)

(** X1.  A payload that [pollAttestation] returns is, unchanged, the
    parsed body of a 2xx answer whose [attestation] is truthy; it is the
    first answer the poll treats as ready, and every earlier attempt
    passed its deadline check. *)
Theorem resolved_payload_is_an_answer w hash fuel json evs :
  pollAttestation fuel w hash = Some (Resolved json, evs) ->
  exists k status statusText att,
    (k < fuel)%nat
    /\ fetched (attempt w k) = FetchResponse status statusText (BodyJSON json)
    /\ res_ok status = true
    /\ prop json "attestation" = inr att
    /\ truthy att = true
    /\ forall j, (j < k)%nat ->
         ready_payload (fetched (attempt w j)) = None
         /\ now_check (attempt w j) - start w <= 180000.
Proof.
  intros H.
  destruct (pollAttestation_settled _ _ _ _ _ H) as (rest & Hloop & _).
  destruct (poll_loop_settled _ _ _ _ _ _ Hloop)
    as (k & Hk & _ & Hbefore & Hlast).
  simpl in Hlast.
  destruct (ready_payload_inv _ _ Hlast)
    as (status & statusText & att & Hf & Hok & Hatt & Ht).
  exists k, status, statusText, att.
  repeat (split; [assumption|]).
  intros j Hj. apply Hbefore. lia.
Qed.

Lemma resolved_payload_is_an_answer_witness :
  exists k status statusText,
    fetched (attempt flaky_world k)
    = FetchResponse status statusText (BodyJSON signed).
Proof.
  destruct (resolved_payload_is_an_answer flaky_world "0xabc" 3 signed
              [ EvStart "0xabc";
                EvGet "https://iris-api-sandbox.circle.com/v1/attestations/0xabc";
                EvFetchError "ECONNRESET";
                EvSleep 3000;
                EvGet "https://iris-api-sandbox.circle.com/v1/attestations/0xabc";
                EvFetchError "ECONNRESET";
                EvSleep 3000;
                EvGet "https://iris-api-sandbox.circle.com/v1/attestations/0xabc";
                EvStatus 6 (Some (JStr "complete"));
                EvReady 6 ]
              eq_refl)
    as (k & status & statusText & _ & _ & Hf & _).
  exists k, status, statusText. exact Hf.
Defined.

(** X2.  When the first [k] attempts are not ready and pass their
    deadline checks and attempt [k] (counted from 0) meets a ready answer,
    the poll returns that answer after exactly [k + 1] requests: with
    fewer passes it is still running, and it returns whatever the clock
    says at attempt [k], also past the deadline. *)
Theorem first_ready_answer_is_returned w hash k json :
  (forall j, (j < k)%nat ->
     ready_payload (fetched (attempt w j)) = None
     /\ now_check (attempt w j) - start w <= 180000) ->
  ready_payload (fetched (attempt w k)) = Some json ->
  (forall fuel, (fuel <= k)%nat -> pollAttestation fuel w hash = None)
  /\ forall more,
       exists evs,
         pollAttestation (S k + more) w hash = Some (Resolved json, evs)
         /\ filter is_wire evs = rounds hash k.
Proof.
  intros Hbefore Hready.
  destruct (poll_loop_passes w hash k 0) as [Hnone [evs Hsome]].
  { intros j Hj. apply Hbefore. lia. }
  split.
  - intros fuel Hfuel. unfold pollAttestation.
    rewrite (Hnone fuel Hfuel). reflexivity.
  - intros more.
    assert (Hloop : exists rest,
               poll_loop (S k + more) w hash 0 = Some (Resolved json, rest)).
    { replace (S k + more)%nat with (k + S more)%nat by lia.
      rewrite Hsome. simpl.
      destruct (iteration_shape w hash k) as [pevs Hit].
      rewrite Hready in Hit. rewrite Hit. eauto. }
    destruct Hloop as [rest Hloop].
    exists (EvStart hash :: rest). split.
    + unfold pollAttestation. rewrite Hloop. reflexivity.
    + destruct (poll_loop_settled _ _ _ _ _ _ Hloop)
        as (k' & _ & Hrounds & Hbefore' & Hlast).
      simpl in Hlast. simpl. rewrite Hrounds.
      destruct (Nat.lt_trichotomy k' k) as [Hlt | [-> | Hgt]].
      * destruct (Hbefore k' Hlt) as [Hn _]. congruence.
      * reflexivity.
      * destruct (Hbefore' k) as [Hn _]; [lia | congruence].
Qed.

Lemma first_ready_answer_is_returned_witness :
  exists evs,
    pollAttestation 3 flaky_world "0xabc" = Some (Resolved signed, evs)
    /\ filter is_wire evs = rounds "0xabc" 2.
Proof.
  refine (proj2 (first_ready_answer_is_returned flaky_world "0xabc" 2 signed
                   _ eq_refl) 0%nat).
  intros [|[|j]] Hj; [split; [reflexivity | simpl; lia]
                     | split; [reflexivity | simpl; lia]
                     | lia].
Defined.

(** X3.  Whatever way a poll settles, what it sent is one GET to the
    address of the identifier per pass, with exactly one suspension of
    3000 ms between two successive requests and none after the last; at
    least one request is always made. *)
Theorem requests_alternate_with_the_interval w hash fuel o evs :
  pollAttestation fuel w hash = Some (o, evs) ->
  exists k,
    (k < fuel)%nat
    /\ filter is_wire evs = rounds hash k
    /\ List.length (filter is_wire evs) = (2 * k + 1)%nat.
Proof.
  intros H.
  destruct (pollAttestation_settled _ _ _ _ _ H) as (rest & Hloop & ->).
  destruct (poll_loop_settled _ _ _ _ _ _ Hloop) as (k & Hk & Hrounds & _).
  exists k. split; [exact Hk|]. simpl. rewrite Hrounds.
  split; [reflexivity|].
  clear. induction k as [|k IH]; [reflexivity|].
  simpl. rewrite IH. lia.
Qed.

Lemma requests_alternate_with_the_interval_witness :
  exists k,
    (k < 1)%nat
    /\ rounds "0xabc" k = [EvGet (url "0xabc")].
Proof.
  destruct (requests_alternate_with_the_interval late_world "0xabc" 1
              (Rejected (timeout_message "0xabc"))
              [ EvStart "0xabc";
                EvGet "https://iris-api-sandbox.circle.com/v1/attestations/0xabc";
                EvStatus 200 (Some (JStr "pending_confirmations"));
                EvWaitingConfirmations 200;
                EvTimeout 180 ]
              eq_refl)
    as (k & Hk & _).
  exists k. split; [exact Hk|].
  destruct k; [reflexivity | lia].
Defined.

(** X4.  An answer whose body has no [attestation] property of its own
    (an object without the field, an array, a string, a number, a
    boolean, or [null]) never makes the attempt return, whatever its HTTP
    status and whatever its [status] field says. *)
Theorem answer_without_attestation_is_never_ready
    w hash i status statusText json :
  fetched (attempt w i) = FetchResponse status statusText (BodyJSON json) ->
  (forall fields, json = JObj fields -> own_prop "attestation" fields = None) ->
  falls_through w hash i.
Proof.
  intros Hf Hnone.
  destruct json as [| b | x | t | items | fields].
  - unfold falls_through. rewrite iteration_step, Hf.
    rewrite transient_not_ready; [reflexivity|].
    simpl. apply orb_true_r.
  - apply (absent_attestation_falls_through _ _ _ _ _ _ undefined Hf);
      reflexivity.
  - apply (absent_attestation_falls_through _ _ _ _ _ _ undefined Hf);
      reflexivity.
  - apply (absent_attestation_falls_through _ _ _ _ _ _ undefined Hf);
      reflexivity.
  - apply (absent_attestation_falls_through _ _ _ _ _ _ undefined Hf);
      reflexivity.
  - apply (absent_attestation_falls_through _ _ _ _ _ _
             (own_prop "status" fields) Hf); [reflexivity|].
    simpl. rewrite (Hnone fields eq_refl). reflexivity.
Qed.

Lemma answer_without_attestation_is_never_ready_witness :
  snd (iteration (steady 3000 (answer (status_only "complete"))) "0xabc" 0)
  = Continue.
Proof.
  refine (answer_without_attestation_is_never_ready
            (steady 3000 (answer (status_only "complete"))) "0xabc" 0%nat
            200 "OK" (status_only "complete") eq_refl _).
  intros fields H. injection H as <-. reflexivity.
Defined.

(** ** The proxy endpoint *)





(** ** A status that cannot be converted *)

(** An answer whose [status] is truthy but cannot be converted to a
    string is not returned, even with a signed attestation: the
    [TypeError] of line 42 is caught and polling goes on. *)
Example unconvertible_status_keeps_polling :
  iteration
    (steady 3000
       (answer (JObj [ ("status", JObj [("toString", JNull)]);
                       ("attestation", JStr "0x5a17") ])))
    "0xabc" 0
  = ([ EvGet "https://iris-api-sandbox.circle.com/v1/attestations/0xabc";
       EvFetchError "Cannot convert object to primitive value";
       EvSleep 3000 ],
     Continue).
Proof. reflexivity. Qed.

End ServerExtras.

(** * Further properties of the faucet automation *)

Module FaucetExtras.

Import JS Http Faucet FaucetNotions FaucetViews FaucetProps.

(** ** Views of a trace *)

Lemma effects_app (a b : list Event) :
  effects (a ++ b) = effects a ++ effects b.
Proof. apply filter_app. Qed.

Lemma paced_app (a b : list ClaimRequest) :
  paced (a ++ b) = paced a ++ paced b.
Proof. apply flat_map_app. Qed.

Lemma after_inj s p a evs p' a' evs' :
  after s p a evs = after s p' a' evs' ->
  p = p' /\ a = a' /\ evs = evs'.
Proof.
  unfold after. intros H. injection H as Hp Ha Hevs.
  apply app_inv_head in Hevs. repeat split; [lia | lia | exact Hevs].
Qed.

Lemma log_effects m w s : effects (log_events m w s) = [].
Proof.
  unfold log_events. destruct (log_append w (appends s)); reflexivity.
Qed.

(** ** One claim *)

Lemma claimUSDC_effects walletAddress chain cfg w s :
  lookup chain CHAINS = Some cfg ->
  exists outcome evs,
    claimUSDC walletAddress chain w s = (Ok outcome, after s 1 1 evs)
    /\ effects evs = [Post FAUCET_API (request_for cfg walletAddress)].
Proof.
  intros Hcfg. unfold claimUSDC. rewrite Hcfg.
  unfold try_catch, bind, field, ret, emit, fetch_post, json_of, read, text,
    log, throw, after, request_for, or_else.
  simpl.
  destruct (faucet w (posts s) _) as [m | status statusText body]; simpl.
  - destruct (log_append w (appends s)); simpl;
      rewrite <- ?app_assoc, !Nat.add_1_r; simpl;
      eexists; eexists; (split; reflexivity).
  - destruct body as [m | json]; simpl.
    + destruct (log_append w (appends s)); simpl;
        rewrite <- ?app_assoc, !Nat.add_1_r; simpl;
        eexists; eexists; (split; reflexivity).
    + destruct (res_ok status); destruct json; simpl;
        split_shown; simpl;
        destruct (log_append w (appends s)); simpl;
        rewrite <- ?app_assoc, !Nat.add_1_r; simpl;
        eexists; eexists; (split; reflexivity).
Qed.

(** X6.  On a configured chain [claimUSDC] hands back what the faucet
    said and writes exactly one log line of the matching kind.  On a 2xx
    answer whose [message] is falsy or can be converted to a string, the
    outcome is a success carrying that [message] and the line is SUCCESS.
    On any other status, with an [error] that is falsy or can be
    converted, it is a failure carrying that [error] and the line is
    FAILED (with "Unknown error" for a falsy one).  When the request
    fails, the body is not JSON or is [null], or the [message] (on 2xx)
    or [error] (otherwise) is truthy and cannot be converted to a string,
    it is a failure carrying the message of that error and the line is
    ERROR. *)
Theorem claim_outcome_carries_the_answer walletAddress chain cfg w s :
  lookup chain CHAINS = Some cfg ->
  exists outcome evs,
    claimUSDC walletAddress chain w s = (Ok outcome, after s 1 1 evs)
    /\ (forall status statusText json v,
          faucet w (posts s) (request_for cfg walletAddress)
          = FetchResponse status statusText (BodyJSON json) ->
          res_ok status = true ->
          prop json "message" = inr v ->
          shows v = true ->
          outcome = {| success := true; outcome_message := v;
                       outcome_error := undefined |}
          /\ appended evs = [MLogSuccess walletAddress (name cfg)])
    /\ (forall status statusText json v,
          faucet w (posts s) (request_for cfg walletAddress)
          = FetchResponse status statusText (BodyJSON json) ->
          res_ok status = false ->
          prop json "error" = inr v ->
          shows v = true ->
          outcome = {| success := false; outcome_message := undefined;
                       outcome_error := v |}
          /\ appended evs
             = [MLogFailed (or_else v (Some (JStr "Unknown error")))
                  walletAddress (name cfg)])
    /\ (forall m,
          faucet w (posts s) (request_for cfg walletAddress) = FetchRejects m
          \/ (exists status statusText,
                faucet w (posts s) (request_for cfg walletAddress)
                = FetchResponse status statusText (BodyMalformed m))
          \/ (exists status statusText,
                faucet w (posts s) (request_for cfg walletAddress)
                = FetchResponse status statusText (BodyJSON JNull)
                /\ m = type_error_null
                         (if res_ok status then "message" else "error"))
          \/ (exists status statusText json v,
                faucet w (posts s) (request_for cfg walletAddress)
                = FetchResponse status statusText (BodyJSON json)
                /\ prop json (if res_ok status then "message" else "error")
                   = inr v
                /\ shows v = false
                /\ m = cannot_convert) ->
          outcome = {| success := false; outcome_message := undefined;
                       outcome_error := Some (JStr m) |}
          /\ appended evs = [MLogError walletAddress (name cfg) m]).
Proof.
  intros Hcfg. unfold claimUSDC. rewrite Hcfg.
  unfold try_catch, bind, field, ret, emit, fetch_post, json_of, read, text,
    log, throw, after.
  simpl.
  change {| req_address := walletAddress; req_chainId := chainId cfg;
            req_token := token cfg |}
    with (request_for cfg walletAddress).
  destruct (faucet w (posts s) (request_for cfg walletAddress))
    as [m | status statusText [m | json]]; simpl.
  - destruct (log_append w (appends s)); simpl;
      rewrite <- ?app_assoc, !Nat.add_1_r; simpl;
      (eexists; eexists; split; [reflexivity|]);
      (split; [|split]); try (intros; discriminate);
      intros m' [H | [(? & ? & H) | [(? & ? & H & _) | (? & ? & ? & ? & H & _)]]];
      try discriminate;
      injection H as <-; split; reflexivity.
  - destruct (log_append w (appends s)); simpl;
      rewrite <- ?app_assoc, !Nat.add_1_r; simpl;
      (eexists; eexists; split; [reflexivity|]);
      (split; [|split]); try (intros; discriminate);
      intros m' [H | [(? & ? & H) | [(? & ? & H & _) | (? & ? & ? & ? & H & _)]]];
      try discriminate;
      injection H as _ _ <-; split; reflexivity.
  - destruct (res_ok status) eqn:Hok; destruct json; simpl;
      unfold or_else; split_shown; simpl;
      destruct (log_append w (appends s)); simpl;
      rewrite <- ?app_assoc, !Nat.add_1_r; simpl;
      (eexists; eexists; split; [reflexivity|]);
      (split; [|split]);
      try (intros ? ? ? ? H Hok' Hprop Hshows; injection H as <- _ <-;
           first [ congruence
                 | simpl in Hprop; discriminate Hprop
                 | simpl in Hprop; injection Hprop as <-;
                   unfold shows, or_else in *;
                   repeat match goal with
                          | E : truthy _ = _ |- _ => rewrite E in *
                          | E : printable _ = _ |- _ => rewrite E in *
                          end;
                   first [ discriminate | split; reflexivity ] ]);
      try (intros m' [H | [(? & ? & H) | [(st & ? & H & Hm)
                                         | (st & ? & j & v & H & Hprop & Hshows & Hm)]]];
           try discriminate;
           injection H as <- _; try subst j; subst m'; rewrite Hok in *;
           first [ split; reflexivity
                 | simpl in Hprop; discriminate Hprop
                 | simpl in Hprop; injection Hprop as <-;
                   unfold shows in Hshows;
                   repeat match goal with
                          | E : truthy _ = _ |- _ => rewrite E in *
                          | E : printable _ = _ |- _ => rewrite E in *
                          end;
                   first [ discriminate | split; reflexivity ] ]).
Qed.

Lemma claim_outcome_carries_the_answer_witness :
  exists outcome evs,
    claimUSDC "0xa1" "base_sepolia" second_fails initial
    = (Ok outcome, after initial 1 1 evs)
    /\ outcome = {| success := true; outcome_message := Some (JStr "sent");
                    outcome_error := undefined |}
    /\ appended evs = [MLogSuccess "0xa1" "Base Sepolia Testnet"].
Proof.
  destruct (claim_outcome_carries_the_answer "0xa1" "base_sepolia"
              {| name := "Base Sepolia Testnet"; chainId := "84532";
                 token := "USDC" |}
              second_fails initial eq_refl)
    as (outcome & evs & Hrun & Hsuccess & _).
  exists outcome, evs. split; [exact Hrun|].
  exact (Hsuccess 200 "OK" (JObj [("message", JStr "sent")])
           (Some (JStr "sent")) eq_refl eq_refl eq_refl eq_refl).
Defined.

(** ** The wallets of one chain *)

Lemma claim_each_effects chain cfg w :
  lookup chain CHAINS = Some cfg ->
  forall wallets results s,
  exists out evs,
    claim_each chain wallets results w s
    = (Ok out, after s (List.length wallets) (List.length wallets) evs)
    /\ effects evs = paced (map (request_for cfg) wallets).
Proof.
  intros Hcfg.
  induction wallets as [|x rest IH]; intros results s.
  - exists results, []. simpl. unfold ret. rewrite after_nothing.
    split; reflexivity.
  - destruct (claimUSDC_effects x chain cfg w s Hcfg)
      as (outcome & evs1 & Hclaim & Heff1).
    destruct (IH (results ++ [{| wallet := x; result := outcome |}])
                 (after (after s 1 1 evs1) 0 0 [Sleep 2000]))
      as (out & evs2 & Hrest & Heff2).
    exists out, (evs1 ++ [Sleep 2000] ++ evs2).
    split.
    + simpl claim_each. run_with Hclaim. unfold sleep. run_emit.
      rewrite Hrest, !after_after. reflexivity.
    + rewrite !effects_app, Heff1, Heff2. reflexivity.
Qed.

(** What [processChain] does beyond printing and logging, and what it
    returns, in the one-shot script. *)
Lemma processChain_effects chain cfg wallets w s :
  lookup chain CHAINS = Some cfg ->
  exists r a evs,
    Part000.processChain chain wallets w s
    = (Ok r, after s (List.length (wallets_of wallets)) a evs)
    /\ FaucetAutomation.processChain chain wallets w s
       = (Ok tt, after s (List.length (wallets_of wallets)) a evs)
    /\ effects evs = paced (map (request_for cfg) (wallets_of wallets))
    /\ match r with
       | None => no_wallets wallets = true
       | Some results =>
           no_wallets wallets = false
           /\ map (fun e => success (result e)) results
              = map claim_succeeds
                  (answers w cfg (posts s) (wallets_of wallets))
       end.
Proof.
  intros Hcfg.
  destruct (no_wallets wallets) eqn:Hno.
  - destruct (processChain_without_wallets chain cfg wallets w s Hcfg Hno)
      as [H1 H2].
    assert (Hws : wallets_of wallets = []).
    { destruct wallets as [[|x rest]|]; try reflexivity. discriminate. }
    exists None, 0%nat, [Console yellow (MNoWallets (name cfg))].
    rewrite Hws. repeat split; assumption.
  - destruct wallets as [[|x rest]|]; try discriminate.
    destruct (processChain_with_wallets chain cfg x rest w s Hcfg)
      as (results & evs & H1 & H2 & _ & _ & Hsucc & _).
    exists (Some results), (S (List.length (x :: rest))), evs.
    split; [exact H1|]. split; [exact H2|]. split; [|split; [reflexivity|exact Hsucc]].
    (* the same run, stepped once more for what it sends *)
    set (ws := x :: rest) in *.
    set (s1 := after s 0 0
                 [Console blue (MProcessing (List.length ws) (name cfg))]).
    destruct (claim_each_effects chain cfg w Hcfg ws [] s1)
      as (out & cevs & Heach & Heff).
    set (summary := Console green
                      (MChainSummary (name cfg) (successful out) (failed out))).
    destruct (log_events_spec
                (MLogSummary (name cfg) (successful out) (failed out)) w
                (after (after s1 (List.length ws) (List.length ws) cevs)
                   0 0 [summary]))
      as (Hlog & _).
    set (levs := log_events _ w _) in Hlog.
    assert (Hrun : Part000.processChain chain (Some ws) w s
                   = (Ok (Some out),
                      after (after (after s1 (List.length ws) (List.length ws) cevs)
                               0 0 [summary])
                        0 1 levs)).
    { unfold Part000.processChain.
      change (no_wallets (Some ws)) with false. cbv iota.
      run_with (name_of_configured _ _ _ _ Hcfg).
      run_emit. fold s1.
      run_with Heach.
      run_with (name_of_configured _ _ _ _ Hcfg).
      run_emit. fold summary.
      run_with (name_of_configured _ _ _ _ Hcfg).
      run_with Hlog. reflexivity. }
    rewrite H1 in Hrun. unfold s1 in Hrun. rewrite !after_after in Hrun.
    pose proof (f_equal snd Hrun) as Hstate. cbn [snd] in Hstate.
    apply after_inj in Hstate. destruct Hstate as (_ & _ & ->).
    rewrite !effects_app, Heff. unfold levs. rewrite log_effects.
    simpl. rewrite app_nil_r. reflexivity.
Qed.

(** X7.  Beyond printing and logging, [processChain] on a configured
    chain does exactly this: for each wallet in list order, one POST to
    the faucet address with that wallet and the chain's id and token,
    followed by a pause of 2000 ms, also after the last wallet and
    whatever the answer was; with no wallets it does nothing at all. *)
Theorem processChain_paces_its_requests chain cfg wallets w s :
  lookup chain CHAINS = Some cfg ->
  exists r a evs,
    Part000.processChain chain wallets w s
    = (Ok r, after s (List.length (wallets_of wallets)) a evs)
    /\ FaucetAutomation.processChain chain wallets w s
       = (Ok tt, after s (List.length (wallets_of wallets)) a evs)
    /\ effects evs
       = flat_map
           (fun x =>
              [ Post "https://faucet.circle.com/claim"
                  {| req_address := x; req_chainId := chainId cfg;
                     req_token := token cfg |};
                Sleep 2000 ])
           (wallets_of wallets).
Proof.
  intros Hcfg.
  destruct (processChain_effects chain cfg wallets w s Hcfg)
    as (r & a & evs & H1 & H2 & Heff & _).
  exists r, a, evs. split; [exact H1|]. split; [exact H2|].
  rewrite Heff. unfold paced. rewrite flat_map_concat_map, map_map.
  rewrite <- flat_map_concat_map. reflexivity.
Qed.

Lemma processChain_paces_its_requests_witness :
  exists r a evs,
    Part000.processChain "base_sepolia" (Some ["0xa1"; "0xb2"; "0xc3"])
      second_fails initial
    = (Ok r, after initial 3 a evs)
    /\ List.length (effects evs) = 6%nat.
Proof.
  destruct (processChain_paces_its_requests "base_sepolia"
              {| name := "Base Sepolia Testnet"; chainId := "84532";
                 token := "USDC" |}
              (Some ["0xa1"; "0xb2"; "0xc3"]) second_fails initial eq_refl)
    as (r & a & evs & Hrun & _ & Heff).
  exists r, a, evs. split; [exact Hrun|].
  rewrite Heff. reflexivity.
Defined.

(** ** The loop over the three chains *)

Lemma process_chains_effects w wallets s :
  exists r1 r2 r3 a evs,
    Part000.process_chains (keys CHAINS) wallets [] w s
    = (Ok [ ("avalanche_fuji", r1); ("ethereum_sepolia", r2);
            ("base_sepolia", r3) ],
       after s (List.length (planned wallets)) a evs)
    /\ FaucetAutomation.process_chains (keys CHAINS) wallets w s
       = (Ok tt, after s (List.length (planned wallets)) a evs)
    /\ effects evs = paced (planned wallets)
    /\ (skips_a_chain wallets = true <-> r1 = None \/ r2 = None \/ r3 = None)
    /\ map claim_succeeds (run_answers w (posts s) CHAINS wallets)
       = map (fun e => success (result e))
           (match r1 with Some l => l | None => [] end
            ++ match r2 with Some l => l | None => [] end
            ++ match r3 with Some l => l | None => [] end).
Proof.
  set (cfg1 := {| name := "Avalanche Fuji Testnet"; chainId := "43113";
                  token := "USDC" |}).
  set (cfg2 := {| name := "Ethereum Sepolia Testnet"; chainId := "11155111";
                  token := "USDC" |}).
  set (cfg3 := {| name := "Base Sepolia Testnet"; chainId := "84532";
                  token := "USDC" |}).
  set (ws1 := wallets_of (lookup "avalanche_fuji" wallets)).
  set (ws2 := wallets_of (lookup "ethereum_sepolia" wallets)).
  set (ws3 := wallets_of (lookup "base_sepolia" wallets)).
  destruct (processChain_effects "avalanche_fuji" cfg1
              (lookup "avalanche_fuji" wallets) w s eq_refl)
    as (r1 & a1 & evs1 & P1 & F1 & E1 & O1).
  fold ws1 in P1, F1, E1, O1.
  set (s1 := after s (List.length ws1) a1 evs1) in *.
  destruct (processChain_effects "ethereum_sepolia" cfg2
              (lookup "ethereum_sepolia" wallets) w s1 eq_refl)
    as (r2 & a2 & evs2 & P2 & F2 & E2 & O2).
  fold ws2 in P2, F2, E2, O2.
  set (s2 := after s1 (List.length ws2) a2 evs2) in *.
  destruct (processChain_effects "base_sepolia" cfg3
              (lookup "base_sepolia" wallets) w s2 eq_refl)
    as (r3 & a3 & evs3 & P3 & F3 & E3 & O3).
  fold ws3 in P3, F3, E3, O3.
  assert (Hplanned :
            planned wallets
            = map (request_for cfg1) ws1
              ++ map (request_for cfg2) ws2
              ++ map (request_for cfg3) ws3).
  { unfold planned, planned_for, CHAINS. simpl flat_map.
    rewrite app_nil_r. reflexivity. }
  assert (Hlen : List.length (planned wallets)
                 = (List.length ws1 + List.length ws2 + List.length ws3)%nat).
  { rewrite Hplanned, !length_app, !length_map. lia. }
  assert (Hstate :
            after s2 (List.length ws3) a3 evs3
            = after s (List.length (planned wallets)) (a1 + a2 + a3)
                (evs1 ++ evs2 ++ evs3)).
  { unfold s2, s1. rewrite !after_after, Hlen.
    rewrite !Nat.add_assoc. reflexivity. }
  exists r1, r2, r3, (a1 + a2 + a3)%nat, (evs1 ++ evs2 ++ evs3).
  split; [|split; [|split; [|split]]].
  - change (keys CHAINS)
      with ["avalanche_fuji"; "ethereum_sepolia"; "base_sepolia"].
    cbn [Part000.process_chains].
    run_with P1. run_with P2. run_with P3.
    unfold ret. rewrite Hstate. reflexivity.
  - change (keys CHAINS)
      with ["avalanche_fuji"; "ethereum_sepolia"; "base_sepolia"].
    cbn [FaucetAutomation.process_chains].
    run_with F1. run_with F2. run_with F3.
    unfold ret. rewrite Hstate. reflexivity.
  - rewrite !effects_app, E1, E2, E3, Hplanned, !paced_app. reflexivity.
  - unfold skips_a_chain.
    change (keys CHAINS)
      with ["avalanche_fuji"; "ethereum_sepolia"; "base_sepolia"].
    cbn [existsb]. rewrite orb_false_r, !orb_true_iff.
    assert (N1 : no_wallets (lookup "avalanche_fuji" wallets) = true
                 <-> r1 = None).
    { destruct r1; simpl in O1; [destruct O1 as [Hno _]|];
        split; intros Hx; congruence. }
    assert (N2 : no_wallets (lookup "ethereum_sepolia" wallets) = true
                 <-> r2 = None).
    { destruct r2; simpl in O2; [destruct O2 as [Hno _]|];
        split; intros Hx; congruence. }
    assert (N3 : no_wallets (lookup "base_sepolia" wallets) = true
                 <-> r3 = None).
    { destruct r3; simpl in O3; [destruct O3 as [Hno _]|];
        split; intros Hx; congruence. }
    tauto.
  - unfold CHAINS. cbn [run_answers]. fold cfg1 cfg2 cfg3 ws1 ws2 ws3.
    rewrite app_nil_r, !map_app.
    assert (A1 : map claim_succeeds (answers w cfg1 (posts s) ws1)
                 = map (fun e => success (result e))
                     match r1 with Some l => l | None => [] end).
    { destruct r1; simpl in O1; [symmetry; apply O1|].
      assert (ws1 = []) as ->; [|reflexivity].
      unfold ws1. destruct (lookup "avalanche_fuji" wallets) as [[|]|];
        try reflexivity; discriminate. }
    assert (A2 : map claim_succeeds
                   (answers w cfg2 (posts s + List.length ws1) ws2)
                 = map (fun e => success (result e))
                     match r2 with Some l => l | None => [] end).
    { destruct r2; simpl in O2; [symmetry; apply O2|].
      assert (ws2 = []) as ->; [|reflexivity].
      unfold ws2. destruct (lookup "ethereum_sepolia" wallets) as [[|]|];
        try reflexivity; discriminate. }
    assert (A3 : map claim_succeeds
                   (answers w cfg3 (posts s + List.length ws1 + List.length ws2) ws3)
                 = map (fun e => success (result e))
                     match r3 with Some l => l | None => [] end).
    { destruct r3; simpl in O3; [symmetry; apply O3|].
      assert (ws3 = []) as ->; [|reflexivity].
      unfold ws3. destruct (lookup "base_sepolia" wallets) as [[|]|];
        try reflexivity; discriminate. }
    rewrite A1, A2, A3. reflexivity.
Qed.

(** ** A whole run of the one-shot script *)

Lemma total_stats_of_three r1 r2 r3 w s :
  Part000.total_stats [r1; r2; r3] 0 0 w s
  = match r1, r2, r3 with
    | Some l1, Some l2, Some l3 =>
        (Ok ((successful l1 + successful l2 + successful l3)%nat,
             (failed l1 + failed l2 + failed l3)%nat), s)
    | _, _, _ => (Thrown (TypeError (type_error_undefined "filter")), s)
    end.
Proof. destruct r1, r2, r3; reflexivity. Qed.

Lemma successful_app (a b : list Entry) :
  successful (a ++ b) = (successful a + successful b)%nat.
Proof. unfold successful. rewrite filter_app, length_app. reflexivity. Qed.

Lemma failed_app (a b : list Entry) :
  failed (a ++ b) = (failed a + failed b)%nat.
Proof. unfold failed. rewrite filter_app, length_app. reflexivity. Qed.

Lemma appended_app (a b : list Event) :
  appended (a ++ b) = appended a ++ appended b.
Proof.
  induction a as [|e a IH]; [reflexivity|].
  destruct e; simpl; rewrite IH; reflexivity.
Qed.

Lemma log_appended m w s : appended (log_events m w s) = [m].
Proof.
  unfold log_events. destruct (log_append w (appends s)); reflexivity.
Qed.

Lemma after_eq s p a evs p' a' :
  p = p' -> a = a' -> after s p a evs = after s p' a' evs.
Proof. intros -> ->. reflexivity. Qed.

Lemma one_shot_run_loaded w wallets :
  wallet_file w = inr wallets ->
  exists a evs,
    run Part000.runFaucet w
    = ((if skips_a_chain wallets then Exited 1 else Ok tt),
       after initial (List.length (planned wallets)) a evs)
    /\ effects evs
       = paced (planned wallets)
         ++ (if skips_a_chain wallets then [ExitProcess 1] else [])
    /\ exists earlier,
         appended evs
         = earlier
           ++ [if skips_a_chain wallets
               then MLogFatal (type_error_undefined "filter")
               else MLogFinal
                      (List.length
                         (filter claim_succeeds
                            (run_answers w 0 CHAINS wallets)))
                      (List.length
                         (filter (fun f => negb (claim_succeeds f))
                            (run_answers w 0 CHAINS wallets)))].
Proof.
  intros Hfile. unfold run, Part000.runFaucet.
  run_emit.
  set (s0 := after initial 0 0 [Console green MBanner]).
  destruct (process_chains_effects w wallets s0)
    as (r1 & r2 & r3 & a & evs & Hchains & _ & Heff & Hskip & Hflags).
  change (posts s0) with 0%nat in Hflags.
  set (s1 := after s0 (List.length (planned wallets)) a evs) in Hchains.
  set (s2 := after s1 0 0 [Console green MCycleCompleted]).
  pose proof (total_stats_of_three r1 r2 r3 w s2) as Hstats.
  unfold try_catch.
  run_with (proj1 (loadWallets_loaded w wallets s0 Hfile)).
  run_with Hchains. run_emit. fold s2.
  change (values [ ("avalanche_fuji", r1); ("ethereum_sepolia", r2);
                   ("base_sepolia", r3) ])
    with [r1; r2; r3].
  destruct (skips_a_chain wallets) eqn:Eskip.
  - assert (Hthrown : Part000.total_stats [r1; r2; r3] 0 0 w s2
                      = (Thrown (TypeError (type_error_undefined "filter")), s2)).
    { rewrite Hstats.
      destruct (proj1 Hskip eq_refl) as [-> | [-> | ->]];
        [|destruct r1|destruct r1; destruct r2]; reflexivity. }
    rewrite (bind_thrown _ _ _ _ _ _ Hthrown).
    run_emit.
    destruct (log_events_spec
                (MLogFatal (message (TypeError (type_error_undefined "filter"))))
                w (after s2 0 0
                     [Console red
                        (MFatal (message (TypeError (type_error_undefined "filter"))))]))
      as (Hlog & _).
    set (levs := log_events _ w _) in Hlog.
    run_with Hlog. rewrite exit_after.
    unfold s2, s1, s0. rewrite !after_after.
    match goal with
    | |- exists _ _, (_, after _ _ ?a' ?e) = _ /\ _ => exists a', e
    end.
    split; [f_equal; apply after_eq; lia|]. split.
    + rewrite !effects_app, Heff. unfold levs. rewrite log_effects.
      reflexivity.
    + exists (appended evs).
      rewrite !appended_app. unfold levs. rewrite log_appended.
      reflexivity.
  - assert (Hall : exists l1 l2 l3,
               r1 = Some l1 /\ r2 = Some l2 /\ r3 = Some l3).
    { destruct r1 as [l1|], r2 as [l2|], r3 as [l3|];
        try (exfalso;
             assert (false = true) by (apply Hskip; auto);
             discriminate).
      exists l1, l2, l3. repeat split. }
    destruct Hall as (l1 & l2 & l3 & -> & -> & ->).
    cbv iota in Hstats. run_with Hstats. run_emit.
    cbn [fst snd].
    destruct (log_events_spec
                (MLogFinal (successful l1 + successful l2 + successful l3)
                   (failed l1 + failed l2 + failed l3))
                w (after s2 0 0
                     [Console green
                        (MFinalSummary
                           (successful l1 + successful l2 + successful l3)
                           (failed l1 + failed l2 + failed l3))]))
      as (Hlog & _).
    set (levs := log_events _ w _) in Hlog.
    rewrite Hlog.
    unfold s2, s1, s0. rewrite !after_after.
    match goal with
    | |- exists _ _, (_, after _ _ ?a' ?e) = _ /\ _ => exists a', e
    end.
    split; [f_equal; apply after_eq; lia|]. split.
    + rewrite !effects_app, Heff. unfold levs. rewrite log_effects.
      reflexivity.
    + exists (appended evs).
      rewrite !appended_app. unfold levs. rewrite log_appended.
      simpl appended. cbn [app].
      rewrite <- !successful_app, <- !failed_app, <- !app_assoc.
      unfold successful, failed.
      rewrite (count_by_map claim_succeeds (fun e => success (result e))
                 _ _ Hflags).
      rewrite (count_by_map (fun f => negb (claim_succeeds f))
                 (fun e => negb (success (result e)))
                 (run_answers w 0 CHAINS wallets) (l1 ++ l2 ++ l3)).
      * reflexivity.
      * rewrite <- (map_map claim_succeeds negb), Hflags, map_map.
        reflexivity.
Qed.

Lemma one_shot_run_unloaded w e :
  wallet_file w = inl e ->
  exists a evs,
    run Part000.runFaucet w = (Exited 1, after initial 0 a evs)
    /\ effects evs = [ExitProcess 1].
Proof.
  intros Hfile.
  assert (Hthrows : fst (run Part000.loadWallets w) = Thrown e).
  { unfold run, Part000.loadWallets, try_catch, read_wallet_file.
    rewrite Hfile. reflexivity. }
  unfold run, Part000.runFaucet. run_emit.
  unfold try_catch at 1.
  rewrite (bind_thrown _ _ _ _ _ _ (Part000_loadWallets_throws w e _ Hthrows)).
  run_emit.
  destruct (log_events_spec (MLogFatal (message e)) w
              (after (after (after initial 0 0 [Console green MBanner])
                        0 0 [Console red (MLoadFailed (message e))])
                 0 0 [Console red (MFatal (message e))]))
    as (Hlog & _).
  set (levs := log_events _ w _) in Hlog.
  run_with Hlog. rewrite exit_after, !after_after.
  eexists _, _. split; [reflexivity|].
  rewrite !effects_app. unfold levs. rewrite log_effects. reflexivity.
Qed.

Lemma configured_key chain cfg :
  lookup chain CHAINS = Some cfg -> In chain (keys CHAINS).
Proof.
  unfold CHAINS. simpl.
  destruct (String.eqb chain "avalanche_fuji") eqn:E1;
    [apply String.eqb_eq in E1; auto|].
  destruct (String.eqb chain "ethereum_sepolia") eqn:E2;
    [apply String.eqb_eq in E2; auto|].
  destruct (String.eqb chain "base_sepolia") eqn:E3;
    [apply String.eqb_eq in E3; auto 6|].
  discriminate.
Qed.

(** C6 (the code departs from the claim).  The claim: an empty or absent
    wallet list is no error; the chain is simply skipped, with a summary
    of 0 successes and 0 failures.  The code of the one-shot script: the
    guard of [processChain] leaves with a bare [return], so [undefined]
    and not a list of outcomes is stored for the chain, and the final
    count of [runFaucet] (lines 151-154) throws on it.  A run whose
    wallet file leaves a configured chain empty or absent claims for all
    the other wallets and then ends as a fatal error, with exit status 1
    and the [TypeError] as its last log line; no summary of 0 and 0 is
    ever produced. *)
Theorem skipped_chain_ends_the_run_as_fatal w wallets chain cfg :
  wallet_file w = inr wallets ->
  lookup chain CHAINS = Some cfg ->
  no_wallets (lookup chain wallets) = true ->
  (forall s,
     Part000.processChain chain (lookup chain wallets) w s
     = (Ok None, after s 0 0 [Console yellow (MNoWallets (name cfg))]))
  /\ exists a evs earlier,
       run Part000.runFaucet w
       = (Exited 1, after initial (List.length (planned wallets)) a evs)
       /\ effects evs = paced (planned wallets) ++ [ExitProcess 1]
       /\ appended evs
          = earlier ++ [MLogFatal (type_error_undefined "filter")].
Proof.
  intros Hfile Hcfg Hno. split.
  - intros s.
    exact (proj1 (processChain_without_wallets chain cfg _ w s Hcfg Hno)).
  - assert (Hskip : skips_a_chain wallets = true).
    { unfold skips_a_chain. apply existsb_exists.
      exists chain. split; [exact (configured_key chain cfg Hcfg) | exact Hno]. }
    destruct (one_shot_run_loaded w wallets Hfile)
      as (a & evs & Hrun & Heff & earlier & Happ).
    rewrite Hskip in Hrun, Heff, Happ.
    exists a, evs, earlier. repeat split; assumption.
Qed.

Lemma skipped_chain_ends_the_run_as_fatal_witness :
  exists a evs,
    run Part000.runFaucet second_fails = (Exited 1, after initial 3 a evs)
    /\ List.length (effects evs) = 7%nat.
Proof.
  destruct (skipped_chain_ends_the_run_as_fatal second_fails
              [("base_sepolia", ["0xa1"; "0xb2"; "0xc3"])]
              "avalanche_fuji"
              {| name := "Avalanche Fuji Testnet"; chainId := "43113";
                 token := "USDC" |}
              eq_refl eq_refl eq_refl)
    as (_ & a & evs & _ & Hrun & Heff & _).
  exists a, evs. split; [exact Hrun|].
  rewrite Heff. reflexivity.
Defined.

(** X8.  How a run of the one-shot script completes, and everything it
    does beyond printing and logging, is decided by the wallet file alone,
    whatever the faucet answers and whether or not the log file can be
    written.  With an unreadable wallet file it sends nothing and exits
    with status 1.  Otherwise it claims for every wallet of every chain,
    each request followed by its pause, and then exits with status 1
    exactly when one of the three chains has no wallets; if none is
    skipped it fulfils.  It never rejects, writes no file and sets no
    timer. *)
Theorem one_shot_run_is_decided_by_the_wallet_file w :
  exists p a evs,
    run Part000.runFaucet w = (one_shot_completion w, after initial p a evs)
    /\ effects evs = one_shot_effects w.
Proof.
  unfold one_shot_completion, one_shot_effects.
  destruct (wallet_file w) as [e | wallets] eqn:Hfile.
  - destruct (one_shot_run_unloaded w e Hfile) as (a & evs & Hrun & Heff).
    exists 0%nat, a, evs. split; assumption.
  - destruct (one_shot_run_loaded w wallets Hfile)
      as (a & evs & Hrun & Heff & _).
    exists (List.length (planned wallets)), a, evs. split; assumption.
Qed.

Lemma answers_length w cfg : forall wallets n,
  List.length (answers w cfg n wallets) = List.length wallets.
Proof.
  induction wallets as [|x rest IH]; intros n; [reflexivity|].
  simpl. rewrite IH. reflexivity.
Qed.

Lemma run_answers_length w wallets : forall chains n,
  List.length (run_answers w n chains wallets)
  = List.length (planned_for chains wallets).
Proof.
  induction chains as [|[chain cfg] chains IH]; intros n; [reflexivity|].
  simpl. rewrite !length_app, IH, answers_length, length_map. reflexivity.
Qed.

Lemma filter_partition_length {A : Type} (f : A -> bool) (l : list A) :
  (List.length (filter f l) + List.length (filter (fun x => negb (f x)) l))%nat
  = List.length l.
Proof.
  induction l as [|x l IH]; [reflexivity|].
  simpl. destruct (f x); simpl; lia.
Qed.

(** X9.  When every configured chain has wallets, the one-shot run
    fulfils and the last line it logs is the final summary, whose two
    numbers are the answers of the faucet that count as success and those
    that do not, over all three chains; together they are the number of
    requests sent. *)
Theorem final_summary_counts_every_claim w wallets :
  wallet_file w = inr wallets ->
  skips_a_chain wallets = false ->
  exists a evs earlier totalSuccess totalFailed,
    run Part000.runFaucet w
    = (Ok tt, after initial (List.length (planned wallets)) a evs)
    /\ appended evs = earlier ++ [MLogFinal totalSuccess totalFailed]
    /\ totalSuccess
       = List.length (filter claim_succeeds (run_answers w 0 CHAINS wallets))
    /\ totalFailed
       = List.length
           (filter (fun f => negb (claim_succeeds f))
              (run_answers w 0 CHAINS wallets))
    /\ (totalSuccess + totalFailed)%nat = List.length (requests evs).
Proof.
  intros Hfile Hskip.
  destruct (one_shot_run_loaded w wallets Hfile)
    as (a & evs & Hrun & _ & earlier & Happ).
  rewrite Hskip in Hrun, Happ.
  destruct (Part000_runFaucet_loaded w wallets Hfile)
    as (r & p & a' & evs' & Hrun' & Hreq).
  rewrite Hrun in Hrun'.
  pose proof (f_equal snd Hrun') as Hstate. cbn [snd] in Hstate.
  apply after_inj in Hstate. destruct Hstate as (_ & _ & <-).
  eexists a, evs, earlier, _, _.
  split; [exact Hrun|]. split; [exact Happ|].
  split; [reflexivity|]. split; [reflexivity|].
  rewrite filter_partition_length, run_answers_length, Hreq. reflexivity.
Qed.

Lemma final_summary_counts_every_claim_witness :
  exists a evs earlier,
    run Part000.runFaucet all_chains = (Ok tt, after initial 4 a evs)
    /\ appended evs = earlier ++ [MLogFinal 3 1].
Proof.
  destruct (final_summary_counts_every_claim all_chains
              [ ("avalanche_fuji", ["0xa1"]);
                ("ethereum_sepolia", ["0xb2"; "0xc3"]);
                ("base_sepolia", ["0xd4"]) ]
              eq_refl eq_refl)
    as (a & evs & earlier & ts & tf & Hrun & Happ & -> & -> & _).
  exists a, evs, earlier. split; [exact Hrun | exact Happ].
Defined.

(** ** A whole run of the rescheduling script *)

(** [loadWallets] of the rescheduling script, case by case. *)
Lemma rescheduling_load w s :
  FaucetAutomation.loadWallets w s
  = match wallet_file w with
    | inr wallets => (Ok wallets, s)
    | inl e =>
        if FaucetAutomation.is_ENOENT e
        then match sample_write w with
             | None =>
                 (Ok FaucetAutomation.sampleWallets,
                  after s 0 0 [WriteSample; Console green MCreatedSample])
             | Some e' => (Thrown e', after s 0 0 [WriteSample])
             end
        else (Thrown e, s)
    end.
Proof.
  unfold FaucetAutomation.loadWallets, try_catch, read_wallet_file, bind,
    throw, write_sample_file, emit, ret, after.
  destruct (wallet_file w) as [e | wallets]; [|reflexivity].
  destruct (FaucetAutomation.is_ENOENT e); [|reflexivity].
  destruct (sample_write w); simpl;
    rewrite <- ?app_assoc, !Nat.add_0_r; reflexivity.
Qed.

(** The [try] statement of [runFaucet]: it always completes normally. *)
Lemma rescheduling_try w s :
  exists p a evs,
    try_catch
      (wallets <- FaucetAutomation.loadWallets ;;
       FaucetAutomation.process_chains (keys CHAINS) wallets)
      (fun error =>
         emit (Console red (MFatal (message error))) ;;
         log (MLogFatal (message error))) w s
    = (Ok tt, after s p a evs)
    /\ effects evs = rescheduling_effects w.
Proof.
  unfold try_catch, rescheduling_effects.
  pose proof (rescheduling_load w s) as Hload.
  destruct (wallet_file w) as [e | wallets].
  - destruct (FaucetAutomation.is_ENOENT e).
    + destruct (sample_write w) as [e'|].
      * rewrite (bind_thrown _ _ _ _ _ _ Hload). run_emit.
        destruct (log_events_spec (MLogFatal (message e')) w
                    (after (after s 0 0 [WriteSample]) 0 0
                       [Console red (MFatal (message e'))]))
          as (Hlog & _).
        set (levs := log_events _ w _) in Hlog.
        rewrite Hlog, !after_after.
        eexists _, _, _. split; [reflexivity|].
        rewrite !effects_app. unfold levs. rewrite log_effects. reflexivity.
      * run_with Hload.
        destruct (process_chains_effects w FaucetAutomation.sampleWallets
                    (after s 0 0 [WriteSample; Console green MCreatedSample]))
          as (_ & _ & _ & a & evs & _ & Hchains & Heff & _).
        rewrite Hchains, !after_after.
        eexists _, _, _. split; [reflexivity|].
        rewrite !effects_app, Heff. reflexivity.
    + rewrite (bind_thrown _ _ _ _ _ _ Hload). run_emit.
      destruct (log_events_spec (MLogFatal (message e)) w
                  (after s 0 0 [Console red (MFatal (message e))]))
        as (Hlog & _).
      set (levs := log_events _ w _) in Hlog.
      rewrite Hlog, !after_after.
      eexists _, _, _. split; [reflexivity|].
      rewrite !effects_app. unfold levs. rewrite log_effects. reflexivity.
  - run_with Hload.
    destruct (process_chains_effects w wallets s)
      as (_ & _ & _ & a & evs & _ & Hchains & Heff & _).
    rewrite Hchains. eexists _, _, _. split; [reflexivity | exact Heff].
Qed.

Lemma rescheduling_run w s :
  exists p a evs,
    FaucetAutomation.runFaucet w s = (Ok tt, after s p a evs)
    /\ effects evs = rescheduling_effects w.
Proof.
  unfold FaucetAutomation.runFaucet.
  repeat run_emit. rewrite !after_after.
  match goal with
  | |- context [after s ?p0 ?a0 ?e0] => set (s0 := after s p0 a0 e0)
  end.
  destruct (rescheduling_try w s0) as (p & a & evs & Htry & Heff).
  run_with Htry. repeat run_emit.
  match goal with
  | |- context [log MLogCycle w ?st] =>
      destruct (log_events_spec MLogCycle w st) as (Hlog & _);
      set (levs := log_events MLogCycle w st) in *;
      rewrite Hlog
  end.
  unfold s0. rewrite !after_after.
  eexists _, _, _. split; [reflexivity|].
  rewrite !effects_app, Heff. unfold levs. rewrite log_effects.
  simpl. rewrite app_nil_r. reflexivity.
Qed.

(** X10.  A run of the rescheduling script never rejects and never exits
    the process, in any world: whatever goes wrong is caught and logged,
    and [runFaucet] fulfils.  So the script run as the main module always
    arms the timer of 3600000 ms after the first run, and the handler that
    would exit with status 1 is never entered.  What the run sends is
    decided by the wallet file and the file system alone. *)
Theorem rescheduling_run_always_fulfils w :
  (exists p a evs,
     run FaucetAutomation.runFaucet w = (Ok tt, after initial p a evs)
     /\ effects evs = rescheduling_effects w)
  /\ (exists p a evs,
       run FaucetAutomation.main w = (Ok tt, after initial p a evs)
       /\ effects evs = rescheduling_effects w ++ [SetInterval 3600000]).
Proof.
  split.
  - exact (rescheduling_run w initial).
  - unfold run, FaucetAutomation.main. run_emit.
    destruct (rescheduling_run w (after initial 0 0 [Console green MStarting]))
      as (p & a & evs & Hrun & Heff).
    unfold try_catch. run_with Hrun. rewrite emit_after, !after_after.
    eexists _, _, _. split; [reflexivity|].
    rewrite !effects_app, Heff. reflexivity.
Qed.

(** X11.  When the wallet file does not exist and the sample file can be
    written, a run of the rescheduling script writes the sample file once
    and then claims for the sample address on each of the three chains,
    in the order Avalanche Fuji, Ethereum Sepolia, Base Sepolia, each
    request followed by its pause; if the sample file cannot be written,
    it sends nothing. *)
Theorem missing_wallet_file_claims_for_the_sample w e :
  wallet_file w = inl e ->
  code e = Some "ENOENT" ->
  exists p a evs,
    run FaucetAutomation.runFaucet w = (Ok tt, after initial p a evs)
    /\ effects evs
       = match sample_write w with
         | Some _ => [WriteSample]
         | None =>
             WriteSample
             :: flat_map
                  (fun id =>
                     [ Post "https://faucet.circle.com/claim"
                         {| req_address :=
                              "0x6021e09E8Cd947701E2368D60239C04486118f18";
                            req_chainId := id;
                            req_token := "USDC" |};
                       Sleep 2000 ])
                  ["43113"; "11155111"; "84532"]
         end.
Proof.
  intros Hfile Hcode.
  destruct (rescheduling_run w initial) as (p & a & evs & Hrun & Heff).
  exists p, a, evs. split; [exact Hrun|].
  rewrite Heff. unfold rescheduling_effects, FaucetAutomation.is_ENOENT.
  rewrite Hfile, Hcode. simpl.
  destruct (sample_write w); reflexivity.
Qed.

Lemma missing_wallet_file_claims_for_the_sample_witness :
  exists p a evs,
    run FaucetAutomation.runFaucet first_run = (Ok tt, after initial p a evs)
    /\ List.length (requests evs) = 3%nat.
Proof.
  destruct (missing_wallet_file_claims_for_the_sample first_run
              {| code := Some "ENOENT";
                 message :=
                   "ENOENT: no such file or directory, open './wallets.json'" |}
              eq_refl eq_refl)
    as (p & a & evs & Hrun & Heff).
  exists p, a, evs. split; [exact Hrun|].
  pose proof (f_equal snd Hrun) as Hstate. cbn [snd] in Hstate.
  vm_compute in Hstate.
  injection Hstate as _ _ <-. reflexivity.
Defined.

End FaucetExtras.
